(** * Crush: the OpenBSD sandbox controller and the shell interceptor chain

    A shallow embedding of
      - [internal/security/security_openbsd.go] and [security_stub.go]
        (package [security]: [Init], [setupUnveil], [Shutdown],
        [IsInitialized]),
      - the two files of package [shell]: [coreutils.go], which sets
        [useGoCoreUtils], and the file that holds the block predicates and
        the exec handlers,
    followed by the properties of these functions.

    Go strings are byte strings and are modelled by [string]; a slice of
    strings is a [list string]; a Go [error] is modelled by its message,
    [nil] being [None]. *)

From Stdlib Require Import Ascii.
From stdpp Require Import base option list strings gmap pretty.

(** ** Package [strings] of the Go standard library (the functions used) *)

Module Strings.

(** [strings.HasPrefix(s, prefix)]. *)
Definition HasPrefix (s prefix : string) : bool := String.prefix prefix s.

(** [strings.Contains(s, substr)]: [substr] occurs at some offset of [s]. *)
Fixpoint Contains (s substr : string) : bool :=
  HasPrefix s substr ||
  match s with
  | EmptyString => false
  | String _ s' => Contains s' substr
  end.

(** [strings.IndexByte(s, c)]: offset of the first [c]; Go's [-1] is [None]. *)
Fixpoint IndexByte (s : string) (c : ascii) : option nat :=
  match s with
  | EmptyString => None
  | String a s' => if Ascii.eqb a c then Some 0 else S <$> IndexByte s' c
  end.

(** [strings.Join(elems, sep)]. *)
Fixpoint Join (elems : list string) (sep : string) : string :=
  match elems with
  | [] => ""
  | [e] => e
  | e :: es => e +:+ sep +:+ Join es sep
  end.

(** [strings.Fields(s)]: the maximal runs of non-space bytes of [s]. *)
Fixpoint fields_go (s cur : string) : list string :=
  match s with
  | EmptyString => if String.eqb cur "" then [] else [cur]
  | String a s' =>
      if Ascii.is_space a
      then (if String.eqb cur "" then [] else [cur]) ++ fields_go s' ""
      else fields_go s' (cur +:+ String a "")
  end.

Definition Fields (s : string) : list string := fields_go s "".

End Strings.

(** ** Package [path/filepath] of the Go standard library, Unix flavour *)

Module Filepath.

(** The path with its trailing slashes removed. *)
Fixpoint stripTrailingSlashes (path : string) : string :=
  match path with
  | EmptyString => ""
  | String a rest =>
      let rest' := stripTrailingSlashes rest in
      if Ascii.eqb a "/"%char && String.eqb rest' "" then "" else String a rest'
  end.

(** What follows the last slash of [path] ([cur] is what was read since
    the last slash seen). *)
Fixpoint lastElement (path cur : string) : string :=
  match path with
  | EmptyString => cur
  | String a rest =>
      if Ascii.eqb a "/"%char then lastElement rest ""
      else lastElement rest (cur +:+ String a "")
  end.

(** [filepath.Base(path)]: the last element of [path]; ["."] for the
    empty path and ["/"] for a path of slashes only. *)
Definition Base (path : string) : string :=
  if String.eqb path "" then "."
  else
    let path := lastElement (stripTrailingSlashes path) "" in
    if String.eqb path "" then "/" else path.

(** [filepath.SplitList(path)]: the elements of a colon-separated list;
    the empty string has none. *)
Fixpoint splitList_go (path cur : string) : list string :=
  match path with
  | EmptyString => [cur]
  | String a rest =>
      if Ascii.eqb a ":"%char then cur :: splitList_go rest ""
      else splitList_go rest (cur +:+ String a "")
  end.

Definition SplitList (path : string) : list string :=
  if String.eqb path "" then [] else splitList_go path "".

End Filepath.

(** ** Package [shell]: the command block list *)

Module Shell.

(** [type BlockFunc func(args []string) bool] *)
Definition BlockFunc : Type := list string → bool.

(** [CommandsBlocker]: the banned names are put in a set once, the
    returned predicate looks the first token up in it. *)
Definition CommandsBlocker (cmds : list string) : BlockFunc :=
  let bannedSet : gset string :=
    foldl (λ set cmd, {[cmd]} ∪ set) ∅ cmds in
  λ args,
    match args with
    | [] => false
    | a0 :: _ => bool_decide (a0 ∈ bannedSet)
    end.

(** [splitArgsFlags]: one pass over [parts]; a token with prefix ["-"] is
    appended to [flags], cut before its first ['='] if it has one, every
    other token is appended to [args]. *)
Definition splitArgsFlags (parts : list string) : list string * list string :=
  foldl
    (λ '(args, flags) part,
       if Strings.HasPrefix part "-" then
         let flag :=
           match Strings.IndexByte part "="%char with
           | Some idx => String.substring 0 idx part
           | None => part
           end in
         (args, flags ++ [flag])
       else (args ++ [part], flags))
    ([], []) parts.

(** [slices.Equal] of the standard library. *)
Definition slices_Equal (a b : list string) : bool := bool_decide (a = b).

(** [slice.IsSubset(a, b)] of [charmbracelet/x/exp/slice]: every element
    of [a] is an element of [b]; a longer [a] is refused at once. *)
Definition slice_IsSubset (a b : list string) : bool :=
  if length b <? length a then false
  else
    let set : gset string := foldl (λ set item, {[item]} ∪ set) ∅ b in
    forallb (λ item, bool_decide (item ∈ set)) a.

(** [ArgumentsBlocker]. *)
Definition ArgumentsBlocker (cmd : string) (args flags : list string) : BlockFunc :=
  λ parts,
    match parts with
    | [] => false
    | p0 :: rest =>
        if negb (String.eqb p0 cmd) then false
        else
          let '(argParts, flagParts) := splitArgsFlags rest in
          if (length argParts <? length args) || (length flagParts <? length flags)
          then false
          else
            let argsMatch := slices_Equal (take (length args) argParts) args in
            let flagsMatch := slice_IsSubset flags flagParts in
            argsMatch && flagsMatch
    end.


(** *** The exec handlers

    A handler receives the handler context of the interpreter and the
    expanded argument vector of the command to run. What it returns is
    modelled by the decision it takes: an error, the script handed to
    [runScript] (a fresh in-process runner), or whatever the next
    handler of the chain does. *)

Record HandlerContext := {
  Env : list (string * string);
  Dir : string;
}.

Inductive result :=
| Failed (err : string)
| RunInProcess (content : string) (params : list string)
               (env : list (string * string)) (dir : string)
| Spawned (args : list string).

Definition ExecHandlerFunc : Type := HandlerContext → list string → result.
Definition Middleware : Type := ExecHandlerFunc → ExecHandlerFunc.

(** A file as [os.Open], [Read] and [os.ReadFile] see it. *)
Inductive file :=
| NoFile (err : string)
| ReadFails (err : string)
| Regular (content : string).

Section Handlers.

(** The file system, and the two foreign functions that clean paths
    and run the built-in utilities. *)
Variable fs : string → file.
Variable os_Stat : string → option (bool * Z).
Variable filepath_Join : string → string → string.
Variable coreutils_ExecHandler : Middleware.

(** [os.ReadFile]. *)
Definition os_ReadFile (path : string) : string + string :=
  match fs path with
  | NoFile err | ReadFails err => inl err
  | Regular content => inr content
  end.

(** [Shell.runScript]: the script is parsed and interpreted by a new
    runner of this process, with the same exec handlers. The result
    records the call and its arguments; what the call does with them is
    the work of the parser and of the interpreter, which are not part of
    this package: a script that does not parse is an error, and [params]
    goes to [interp.Params], which reads leading option tokens as shell
    options before the positional parameters. *)
Definition runScript (content : string) (params : list string)
    (env : list (string * string)) (dir : string) : result :=
  RunInProcess content params env dir.

(** [Shell.blockHandler] *)
Definition blockHandler (blockFuncs : list BlockFunc) : Middleware :=
  λ next hc args,
    match args with
    | [] => next hc args
    | _ :: _ =>
        if existsb (λ blockFunc : BlockFunc, blockFunc args) blockFuncs
        then Failed ("command is not allowed for security reasons: "
                     +:+ Strings.Join args " ")
        else next hc args
    end.

(** The loop of [shHandler] over [args[i:]], [i >= 1]. It yields the
    error returned from inside the loop, or the values of
    [scriptFile], [scriptContent] and [params] when the loop is left. *)
Fixpoint shScan (cmd : string) (rest : list string)
  : string + (string * string * list string) :=
  match rest with
  | [] => inr ("", "", [])
  | a :: rest' =>
      if String.eqb a "-c" then
        match rest' with
        | content :: params => inr ("", content, params)
        | [] => inl (cmd +:+ ": -c requires an argument")
        end
      else if negb (Strings.HasPrefix a "-") then inr (a, "", a :: rest')
      else shScan cmd rest'
  end.

(** [Shell.shHandler] *)
Definition shHandler : Middleware :=
  λ next hc args,
    match args with
    | [] => next hc args
    | a0 :: rest =>
        let cmd := Filepath.Base a0 in
        if String.eqb cmd "sh" || String.eqb cmd "bash" then
          match shScan cmd rest with
          | inl err => Failed err
          | inr (scriptFile, scriptContent, params) =>
              if negb (String.eqb scriptContent "") then
                runScript scriptContent params (Env hc) (Dir hc)
              else if negb (String.eqb scriptFile "") then
                match os_ReadFile scriptFile with
                | inl err => Failed err
                | inr content => runScript content params (Env hc) (Dir hc)
                end
              else Failed (cmd +:+ ": interactive mode not supported")
          end
        else next hc args
    end.

(** [isShellScript]: the first 128 bytes of the file are read (fewer
    when the file is shorter) and searched. *)
Definition isShellScript (path : string) : bool :=
  match fs path with
  | NoFile _ => false
  | ReadFails _ => false
  | Regular content =>
      let header := String.substring 0 128 content in
      Strings.HasPrefix header "#!" &&
      (Strings.Contains header "/bin/sh" ||
       Strings.Contains header "/bin/bash" ||
       Strings.Contains header " env sh" ||
       Strings.Contains header " env bash")
  end.

(** [lookPath]: the first directory of [pathEnv] in which [file] is a
    non-directory with an execute bit ([0111] is 73). [os_Stat] gives
    [IsDir()] and [Mode()] of a path, or nothing on error. *)
Definition lookPath (file pathEnv : string) : option string :=
  if String.eqb pathEnv "" then None
  else
    snd <$>
      list_find
        (λ path, match os_Stat path with
                 | Some (isDir, mode) => negb isDir && negb (Z.land mode 73 =? 0)%Z
                 | None => false
                 end = true)
        ((λ dir, filepath_Join (if String.eqb dir "" then "." else dir) file)
           <$> Filepath.SplitList pathEnv).

(** The search path that [scriptExecutionHandler] reads with
    [hc.Env.Each]. [env] lists the variables in the order in which [Each]
    visits them, those of an environment before those of its overlay. The
    callback assigns [pathEnv] at every variable named [PATH]; returning
    false there ends the iteration of one layer only, so the value is the
    one of the last [PATH] visited, and empty when there is none. *)
Definition pathVariable (env : list (string * string)) : string :=
  foldl (λ pathEnv kv, if String.eqb kv.1 "PATH" then kv.2 else pathEnv) "" env.

(** [Shell.scriptExecutionHandler] *)
Definition scriptExecutionHandler : Middleware :=
  λ next hc args,
    match args with
    | [] => next hc args
    | path :: _ =>
        let base := Filepath.Base path in
        if String.eqb base "sh" || String.eqb base "bash" then next hc args
        else
          let resolved :=
            if negb (Strings.Contains path "/") then
              lookPath path (pathVariable (Env hc))
            else Some path in
          match resolved with
          | None => next hc args
          | Some path =>
              if isShellScript path then
                match os_ReadFile path with
                | inl err => Failed err
                | inr content => runScript content args (Env hc) (Dir hc)
                end
              else next hc args
          end
    end.

(** [Shell.execHandlers] *)
Definition execHandlers (useGoCoreUtils : bool) (blockFuncs : list BlockFunc)
  : list Middleware :=
  let handlers := [blockHandler blockFuncs] in
  if useGoCoreUtils then
    ((handlers ++ [shHandler]) ++ [scriptExecutionHandler]) ++ [coreutils_ExecHandler]
  else handlers.

(** [interp.DefaultExecHandler]: the command is looked up and started
    as a child process. *)
Definition DefaultExecHandler : ExecHandlerFunc := λ _ args, Spawned args.

(** What [interp.New] makes of the option [interp.ExecHandlers(...)]:
    the middlewares are chained from first to last, the first is called
    by the runner and the last one's [next] is the default handler. *)
Definition execHandler (middlewares : list Middleware) : ExecHandlerFunc :=
  foldr (λ mw next, mw next) DefaultExecHandler middlewares.

End Handlers.

(** *** [coreutils.go] *)

(** [strconv.ParseBool]; [None] is its syntax error. *)
Definition strconv_ParseBool (str : string) : option bool :=
  if bool_decide (str ∈ ["1"; "t"; "T"; "TRUE"; "true"; "True"]) then Some true
  else if bool_decide (str ∈ ["0"; "f"; "F"; "FALSE"; "false"; "False"]) then Some false
  else None.

(** The value [init] gives to [useGoCoreUtils], from the value of
    [os.Getenv("CRUSH_CORE_UTILS")] (empty when unset) and [runtime.GOOS]. *)
Definition init (CRUSH_CORE_UTILS GOOS : string) : bool :=
  match strconv_ParseBool CRUSH_CORE_UTILS with
  | Some v => v
  | None => String.eqb GOOS "windows" || String.eqb GOOS "openbsd"
  end.

(** *** The session *)

(** The fields of [Shell] that its accessors read and write. The mutex
    [mu] serialises the accessors and is not represented; the logger is
    used by [execCommon] only. *)
Record Shell := {
  env : list string;
  cwd : string;
  blockFuncs : list BlockFunc;
}.

(** [Shell.GetEnv]: a copy of the environment. *)
Definition GetEnv (s : Shell) : list string := env s.

(** The loop of [SetEnv]: the first entry with the prefix [keyPrefix] is
    overwritten and the function returns; [None] when the loop ends
    without having returned. *)
Fixpoint setEnvLoop (keyPrefix value : string) (env : list string)
  : option (list string) :=
  match env with
  | [] => None
  | entry :: env' =>
      if Strings.HasPrefix entry keyPrefix
      then Some ((keyPrefix +:+ value) :: env')
      else (entry ::.) <$> setEnvLoop keyPrefix value env'
  end.

(** [Shell.SetEnv] *)
Definition SetEnv (key value : string) (s : Shell) : Shell :=
  let keyPrefix := key +:+ "=" in
  match setEnvLoop keyPrefix value (env s) with
  | Some env' => {| env := env'; cwd := cwd s; blockFuncs := blockFuncs s |}
  | None =>
      {| env := env s ++ [keyPrefix +:+ value]; cwd := cwd s;
         blockFuncs := blockFuncs s |}
  end.

End Shell.

(** ** Package [security], OpenBSD build ([security_openbsd.go]) *)

Module Security.

(** The pledge promises needed for the application lifetime, and the
    promises kept during shutdown. *)
Definition allPromises : string :=
  "stdio rpath wpath cpath dpath flock fattr proc exec inet dns unix tty getpw".

Definition shutdownPromises : string := "stdio".

(** A record handed to [slog.Debug]: the message and its attributes. *)
Definition logRecord : Type := string * list (string * string).

(** The state the package works on: its variable [initialized], what the
    kernel holds for the process (the paths unveiled so far with their
    permissions, whether [unveil] is locked, the promises pledged, if
    any), and the records logged. The mutex [mu] serialises the calls
    and is not represented. *)
Record process := Process {
  initialized : bool;
  unveiled : list (string * string);
  locked : bool;
  promises : option string;
  logged : list logRecord;
}.

(** What the operating system and the Go runtime answer. The system
    calls return their error; [filepath.Abs] and [os.UserHomeDir] return
    a value and an error, as in Go. The answer of [unveil] is a function of
    the path and the permissions, the one of [pledge] of the promises in
    force and the promises requested. *)
Record OS := {
  unix_Unveil : string → string → option string;
  unix_UnveilBlock : option string;
  unix_PledgePromises : option string → string → option string;
  filepath_Abs : string → string * option string;
  filepath_Join : list string → string;
  os_UserHomeDir : string * option string;
  os_Getenv : string → string;
  os_TempDir : string;
  os_Getuid : Z;
  os_MkdirAll : string → option string;
}.

(** Computations on the process state. *)
Definition M (A : Type) : Type := process → A * process.

#[global] Instance M_ret : MRet M := λ A a p, (a, p).
#[global] Instance M_bind : MBind M :=
  λ A B f m p, let '(a, p') := m p in f a p'.

Definition slog_Debug (msg : string) (attrs : list (string * string)) : M unit :=
  λ p, (tt, Process (initialized p) (unveiled p) (locked p) (promises p)
                    (logged p ++ [(msg, attrs)])).

Section OpenBSD.

Variable os : OS.

(** [unix.Unveil(path, perms)] *)
Definition Unveil (path perms : string) : M (option string) :=
  λ p,
    match unix_Unveil os path perms with
    | Some err => (Some err, p)
    | None =>
        (None, Process (initialized p) (unveiled p ++ [(path, perms)])
                       (locked p) (promises p) (logged p))
    end.

(** [unix.UnveilBlock()] *)
Definition UnveilBlock : M (option string) :=
  λ p,
    match unix_UnveilBlock os with
    | Some err => (Some err, p)
    | None =>
        (None, Process (initialized p) (unveiled p) true (promises p) (logged p))
    end.

(** [unix.PledgePromises(promises)] *)
Definition PledgePromises (request : string) : M (option string) :=
  λ p,
    match unix_PledgePromises os (promises p) request with
    | Some err => (Some err, p)
    | None =>
        (None, Process (initialized p) (unveiled p) (locked p) (Some request)
                       (logged p))
    end.

Definition getInitialized : M bool := λ p, (initialized p, p).

Definition setInitialized (b : bool) : M unit :=
  λ p, (tt, Process b (unveiled p) (locked p) (promises p) (logged p)).

(** The system paths of [setupUnveil], with their permissions. *)
Definition systemPaths : list (string * string) :=
  [ ("/usr/lib", "r"); ("/usr/local/lib", "r"); ("/usr/bin", "rx");
    ("/usr/local/bin", "rx"); ("/bin", "rx"); ("/sbin", "r");
    ("/etc/ssl/cert.pem", "r"); ("/etc/ssl/certs", "r");
    ("/etc/resolv.conf", "r"); ("/etc/hosts", "r");
    ("/etc/passwd", "r");
    ("/usr/share/zoneinfo", "r"); ("/etc/localtime", "r");
    ("/dev/null", "rw"); ("/dev/tty", "rw"); ("/dev/urandom", "r") ].

(** The loop of [setupUnveil] over the system paths; the result is
    [unveilCount]. *)
Fixpoint unveilSystemPaths (sps : list (string * string)) (unveilCount : nat)
  : M nat :=
  match sps with
  | [] => mret unveilCount
  | sp :: sps' =>
      err ← Unveil sp.1 sp.2;
      match err with
      | Some err =>
          slog_Debug "unveil skipped" [("path", sp.1); ("error", err)];;
          unveilSystemPaths sps' unveilCount
      | None => unveilSystemPaths sps' (unveilCount + 1)
      end
  end.

(** The statement [if err := unix.Unveil(path, perms); err != nil {
    slog.Debug(msg, attrs..., "error", err) }], which [setupUnveil]
    uses for the paths under the home directory. *)
Definition unveilOrSkip (path perms msg : string)
    (attrs : list (string * string)) : M unit :=
  err ← Unveil path perms;
  match err with
  | Some err => slog_Debug msg (attrs ++ [("error", err)])
  | None => mret tt
  end.

(** The loop of [setupUnveil] over [xdgPaths]. *)
Fixpoint unveilXdgPaths (xdgPaths : list string) : M unit :=
  match xdgPaths with
  | [] => mret tt
  | xp :: xdgPaths' =>
      unveilOrSkip xp "rwc" "unveil xdg path skipped" [("path", xp)];;
      unveilXdgPaths xdgPaths'
  end.

(** The block of [setupUnveil] on the user's home directory. *)
Definition unveilHome (dataDir : string) : M unit :=
  match os_UserHomeDir os with
  | (homeDir, None) =>
      if negb (String.eqb homeDir "") then
        let crushDir := filepath_Join os [homeDir; ".crush"] in
        (if negb (String.eqb (filepath_Abs os dataDir).1 crushDir)
         then unveilOrSkip crushDir "rwc" "unveil home .crush skipped" []
         else mret tt);;
        unveilXdgPaths [ filepath_Join os [homeDir; ".config"];
                         filepath_Join os [homeDir; ".local"; "share"] ];;
        unveilOrSkip (filepath_Join os [homeDir; ".gitconfig"]) "r"
                     "unveil gitconfig skipped" [];;
        (let gopath := os_Getenv os "GOPATH" in
         if negb (String.eqb gopath "")
         then unveilOrSkip gopath "rwc" "unveil GOPATH skipped" [("path", gopath)]
         else mret tt);;
        (let gocache := os_Getenv os "GOCACHE" in
         if negb (String.eqb gocache "")
         then unveilOrSkip gocache "rwc" "unveil GOCACHE skipped" [("path", gocache)]
         else mret tt)
      else mret tt
  | (_, Some _) => mret tt
  end.

(** The end of [setupUnveil]: the temporary directory. *)
Definition unveilTemp (unveilCount : nat) : M (option string) :=
  let tmpDir := filepath_Join os [os_TempDir os; "crush-" +:+ pretty (os_Getuid os)] in
  tmpDir ← match os_MkdirAll os tmpDir with
           | Some err =>
               slog_Debug "failed to create temp dir"
                          [("path", tmpDir); ("error", err)];;
               mret (os_TempDir os)
           | None => mret tmpDir
           end;
  err ← Unveil tmpDir "rwc";
  unveilCount ← match err with
                | Some err =>
                    slog_Debug "unveil temp dir skipped"
                               [("path", tmpDir); ("error", err)];;
                    mret unveilCount
                | None => mret (unveilCount + 1)
                end;
  slog_Debug "unveil setup complete" [("total_paths", pretty unveilCount)];;
  mret None.

(** The working directory, then the rest. *)
Definition unveilWorkingDir (dataDir workingDir : string) (unveilCount : nat)
  : M (option string) :=
  if negb (String.eqb workingDir "") then
    match filepath_Abs os workingDir with
    | (_, Some err) => mret (Some ("resolving working dir: " +:+ err))
    | (absWorkDir, None) =>
        err ← Unveil absWorkDir "rwcx";
        match err with
        | Some err =>
            mret (Some ("unveil working dir " +:+ absWorkDir +:+ ": " +:+ err))
        | None => unveilHome dataDir;; unveilTemp (unveilCount + 1)
        end
    end
  else unveilHome dataDir;; unveilTemp unveilCount.

(** The data directory, then the rest. *)
Definition unveilDataDir (dataDir workingDir : string) (unveilCount : nat)
  : M (option string) :=
  if negb (String.eqb dataDir "") then
    match filepath_Abs os dataDir with
    | (_, Some err) => mret (Some ("resolving data dir: " +:+ err))
    | (absDataDir, None) =>
        err ← Unveil absDataDir "rwc";
        match err with
        | Some err =>
            mret (Some ("unveil data dir " +:+ absDataDir +:+ ": " +:+ err))
        | None => unveilWorkingDir dataDir workingDir (unveilCount + 1)
        end
    end
  else unveilWorkingDir dataDir workingDir unveilCount.

(** [setupUnveil]: the system paths, the data directory, the working
    directory, the home directory and the temporary directory, in this
    order; an error of a mandatory directory returns at once. *)
Definition setupUnveil (dataDir workingDir : string) : M (option string) :=
  unveilCount ← unveilSystemPaths systemPaths 0;
  unveilDataDir dataDir workingDir unveilCount.

(** [Init] *)
Definition Init (dataDir workingDir : string) : M (option string) :=
  isInit ← getInitialized;
  if (isInit : bool) then mret (Some "security already initialized")
  else
    err ← setupUnveil dataDir workingDir;
    match err with
    | Some err => mret (Some ("unveil setup failed: " +:+ err))
    | None =>
        err ← UnveilBlock;
        match err with
        | Some err => mret (Some ("unveil lock failed: " +:+ err))
        | None =>
            err ← PledgePromises allPromises;
            match err with
            | Some err => mret (Some ("pledge failed: " +:+ err))
            | None =>
                setInitialized true;;
                slog_Debug "openbsd security: sandbox active"
                           [("promises", allPromises); ("data_dir", dataDir);
                            ("working_dir", workingDir)];;
                mret None
            end
        end
    end.

(** [Shutdown] *)
Definition Shutdown : M (option string) :=
  isInit ← getInitialized;
  if negb (isInit : bool) then mret None
  else
    err ← PledgePromises shutdownPromises;
    match err with
    | Some err =>
        slog_Debug "pledge shutdown failed" [("error", err)];;
        mret (Some err)
    | None =>
        slog_Debug "openbsd security: shutdown promises active" [];;
        mret None
    end.

(** [IsInitialized] *)
Definition IsInitialized : M bool := getInitialized.

End OpenBSD.

(** The process before any call of the package. *)
Definition start : process := Process false [] false None [].

End Security.

(** ** Package [security], other platforms ([security_stub.go]) *)

Module SecurityStub.

Definition Init (dataDir workingDir : string) : option string := None.
Definition Shutdown : option string := None.
Definition IsInitialized : bool := false.

End SecurityStub.

(** ** The vocabulary of the specification *)

(** The reading of a command line that the block list is specified with:
    a flag token begins with ["-"], its name is what precedes its first
    ['='], and the other tokens are the positional ones. *)
Definition isFlag (token : string) : bool := Strings.HasPrefix token "-".

Definition flagName (token : string) : string :=
  match Strings.IndexByte token "="%char with
  | Some idx => String.substring 0 idx token
  | None => token
  end.

Definition positionals (tokens : list string) : list string :=
  filter (λ t, isFlag t = false) tokens.

Definition flagNames (tokens : list string) : list string :=
  flagName <$> filter (λ t, isFlag t = true) tokens.


(** The line feed. *)
Definition LF : string := String "010"%char "".

(** Whether the enforcing implementation of package [security] is compiled
    for a platform: the build constraint [openbsd] of [security_openbsd.go],
    the stub having the constraint [!openbsd]. It is the one platform with a
    file system restriction, which a child started by exec does not
    inherit ([doc.go]). *)
Definition enforcing (GOOS : string) : bool := String.eqb GOOS "openbsd".

(** A host to run the package on: the paths in [missing] do not exist and
    cannot be unveiled, [pledge] accepts a first request and, after it, the
    requests that add no promise. *)
Definition openbsdHost (missing : list string) : Security.OS :=
  {| Security.unix_Unveil path perms :=
       if bool_decide (path ∈ missing) then Some "no such file or directory" else None;
     Security.unix_UnveilBlock := None;
     Security.unix_PledgePromises current request :=
       match current with
       | None => None
       | Some current =>
           if forallb (λ t, bool_decide (t ∈ Strings.Fields current))
                      (Strings.Fields request)
           then None else Some "operation not permitted"
       end;
     Security.filepath_Abs path :=
       if Strings.HasPrefix path "/" then (path, None)
       else ("/home/dev/" +:+ path, None);
     Security.filepath_Join elems := Strings.Join elems "/";
     Security.os_UserHomeDir := ("/home/dev", None);
     Security.os_Getenv key := if String.eqb key "GOPATH" then "/home/dev/go" else "";
     Security.os_TempDir := "/tmp";
     Security.os_Getuid := 1000;
     Security.os_MkdirAll _ := None |}.

(** The path grants of the sandbox, in the words of the specification. *)

Section PathPolicy.

Import Security.

Variable os : OS.

(** A mandatory directory raises no error: it is not configured, or it
    resolves to an absolute path that [unveil] accepts. *)
Definition mandatoryOK (dir perms : string) : Prop :=
  dir = "" ∨
  ((filepath_Abs os dir).2 = None
   ∧ unix_Unveil os (filepath_Abs os dir).1 perms = None).

(** A best-effort grant: the path, its permissions, and the message and
    attributes of the record logged when the grant is skipped. *)
Record grant := Grant {
  grantPath : string;
  grantPerms : string;
  skipMessage : string;
  skipAttrs : list (string * string);
}.

Definition systemGrants : list grant :=
  (λ sp, Grant sp.1 sp.2 "unveil skipped" [("path", sp.1)]) <$> systemPaths.

(** The grants under the home directory, when there is one: the
    [.crush] directory unless it is the data directory, the XDG
    directories, the git configuration and the Go directories named by
    the environment. *)
Definition homeGrants (dataDir : string) : list grant :=
  match os_UserHomeDir os with
  | (homeDir, None) =>
      if String.eqb homeDir "" then []
      else
        let crushDir := filepath_Join os [homeDir; ".crush"] in
        (if String.eqb (filepath_Abs os dataDir).1 crushDir then []
         else [Grant crushDir "rwc" "unveil home .crush skipped" []])
        ++ ((λ xp, Grant xp "rwc" "unveil xdg path skipped" [("path", xp)])
              <$> [filepath_Join os [homeDir; ".config"];
                   filepath_Join os [homeDir; ".local"; "share"]])
        ++ [Grant (filepath_Join os [homeDir; ".gitconfig"]) "r"
                  "unveil gitconfig skipped" []]
        ++ ((λ name,
               Grant (os_Getenv os name) "rwc"
                     ("unveil " +:+ name +:+ " skipped")
                     [("path", os_Getenv os name)])
              <$> filter (λ name, os_Getenv os name ≠ "") ["GOPATH"; "GOCACHE"])
  | (_, Some _) => []
  end.

(** The temporary directory: the directory of the user, or the system
    one when the former cannot be created. *)
Definition tempGrant : grant :=
  let userTmp :=
    filepath_Join os [os_TempDir os; "crush-" +:+ pretty (os_Getuid os)] in
  let tmpDir :=
    match os_MkdirAll os userTmp with Some _ => os_TempDir os | None => userTmp end in
  Grant tmpDir "rwc" "unveil temp dir skipped" [("path", tmpDir)].

Definition bestEffortGrants (dataDir : string) : list grant :=
  systemGrants ++ homeGrants dataDir ++ [tempGrant].

(** A best-effort grant is settled in a state: the path is unveiled
    with its permissions if [unveil] accepts it, and the skip is logged
    with the error otherwise. *)
Definition settled (g : grant) (p : process) : Prop :=
  match unix_Unveil os (grantPath g) (grantPerms g) with
  | Some err => (skipMessage g, skipAttrs g ++ [("error", err)]) ∈ logged p
  | None => (grantPath g, grantPerms g) ∈ unveiled p
  end.

(** A computation that only adds unveiled paths and log records. *)
Definition frames {A} (m : M A) : Prop :=
  ∀ p,
    initialized (m p).2 = initialized p
    ∧ locked (m p).2 = locked p
    ∧ promises (m p).2 = promises p
    ∧ (∃ more, logged (m p).2 = logged p ++ more)
    ∧ (∃ more, unveiled (m p).2 = unveiled p ++ more).

(** A computation that settles a grant, from any state. *)
Definition attempts {A} (g : grant) (m : M A) : Prop :=
  ∀ p, settled g (m p).2.

End PathPolicy.

(** The calls of the package over the life of a process. *)

Section Lifetime.

Import Security.

(** A call of the package, with what the system answers during it. *)
Inductive call :=
| CallInit (os : OS) (dataDir workingDir : string)
| CallShutdown (os : OS)
| CallIsInitialized.

(** The state a call leaves. *)
Definition exec (c : call) (p : process) : process :=
  match c with
  | CallInit os dataDir workingDir => (Init os dataDir workingDir p).2
  | CallShutdown os => (Shutdown os p).2
  | CallIsInitialized => (IsInitialized p).2
  end.

(** The state after a sequence of calls, from a state and from the start
    of the process. *)
Definition run (calls : list call) (p : process) : process :=
  foldl (λ p c, exec c p) p calls.

Definition history (calls : list call) : process := run calls start.

Variable os : OS.

(** The pairs of a path and permissions that [Init] may hand to
    [unveil]. *)
Definition policy (dataDir workingDir : string) : list (string * string) :=
  systemPaths
  ++ (if String.eqb dataDir "" then [] else [((filepath_Abs os dataDir).1, "rwc")])
  ++ (if String.eqb workingDir "" then []
      else [((filepath_Abs os workingDir).1, "rwcx")])
  ++ ((λ g, (grantPath g, grantPerms g)) <$> homeGrants os dataDir)
  ++ [(grantPath (tempGrant os), grantPerms (tempGrant os))].

(** A computation that unveils only pairs of a list, each accepted by
    [unveil], and removes none. *)
Definition within {A} (allowed : list (string * string)) (m : M A) : Prop :=
  ∀ p, ∃ more,
    unveiled (m p).2 = unveiled p ++ more
    ∧ ∀ e, e ∈ more → e ∈ allowed ∧ unix_Unveil os e.1 e.2 = None.

End Lifetime.

(** The same host with every path present, whose [pledge] refuses the one
    request [refused] and accepts the others. *)
Definition hostRefusing (refused : string) : Security.OS :=
  {| Security.unix_Unveil := Security.unix_Unveil (openbsdHost []);
     Security.unix_UnveilBlock := None;
     Security.unix_PledgePromises _ request :=
       if String.eqb request refused then Some "operation not permitted" else None;
     Security.filepath_Abs := Security.filepath_Abs (openbsdHost []);
     Security.filepath_Join := Security.filepath_Join (openbsdHost []);
     Security.os_UserHomeDir := Security.os_UserHomeDir (openbsdHost []);
     Security.os_Getenv := Security.os_Getenv (openbsdHost []);
     Security.os_TempDir := Security.os_TempDir (openbsdHost []);
     Security.os_Getuid := Security.os_Getuid (openbsdHost []);
     Security.os_MkdirAll := Security.os_MkdirAll (openbsdHost []) |}.

(** * Properties *)

(** ** The block list *)

Section Blocklist.

Import Shell.

Lemma splitArgsFlags_from (parts args flags : list string) :
  foldl
    (λ '(args, flags) part,
       if Strings.HasPrefix part "-" then
         let flag :=
           match Strings.IndexByte part "="%char with
           | Some idx => String.substring 0 idx part
           | None => part
           end in
         (args, flags ++ [flag])
       else (args ++ [part], flags))
    (args, flags) parts
  = (args ++ positionals parts, flags ++ flagNames parts).
Proof.
  revert args flags.
  induction parts as [|part parts IH]; intros args flags; simpl.
  - by rewrite !app_nil_r.
  - unfold positionals, flagNames in *.
    destruct (Strings.HasPrefix part "-") eqn:Hp; rewrite IH.
    + rewrite (filter_cons_False (λ t, isFlag t = false)) by (unfold isFlag; congruence).
      rewrite (filter_cons_True (λ t, isFlag t = true)) by done.
      rewrite fmap_cons. by rewrite <- app_assoc.
    + rewrite (filter_cons_True (λ t, isFlag t = false)) by done.
      rewrite (filter_cons_False (λ t, isFlag t = true)) by (unfold isFlag; congruence).
      by rewrite <- app_assoc.
Qed.

Lemma splitArgsFlags_spec (parts : list string) :
  splitArgsFlags parts = (positionals parts, flagNames parts).
Proof. apply (splitArgsFlags_from parts [] []). Qed.

Lemma elem_of_foldl_union (x : string) (l : list string) (s0 : gset string) :
  x ∈ foldl (λ set item, {[item]} ∪ set) s0 l ↔ x ∈ s0 ∨ x ∈ l.
Proof.
  revert s0. induction l as [|y l IH]; intros s0; simpl.
  - rewrite elem_of_nil. tauto.
  - rewrite IH, elem_of_cons, elem_of_union, elem_of_singleton. tauto.
Qed.

Lemma slice_IsSubset_spec (a b : list string) :
  slice_IsSubset a b = true ↔ length a ≤ length b ∧ ∀ x, x ∈ a → x ∈ b.
Proof.
  unfold slice_IsSubset.
  destruct (Nat.ltb_spec (length b) (length a)) as [Hlt|Hle].
  - split; [done | lia].
  - rewrite forallb_forall. split.
    + intros H. split; [done|]. intros x Hx.
      apply list_elem_of_In, H, bool_decide_eq_true in Hx.
      apply elem_of_foldl_union in Hx as [Hx|Hx]; [set_solver | done].
    + intros [_ H] x Hx. apply bool_decide_eq_true, elem_of_foldl_union.
      right. by apply H, list_elem_of_In.
Qed.

Lemma CommandsBlocker_spec (cmds args : list string) :
  CommandsBlocker cmds args = true ↔ ∃ a0 rest, args = a0 :: rest ∧ a0 ∈ cmds.
Proof.
  unfold CommandsBlocker. destruct args as [|a0 rest].
  - split; [done | by intros (? & ? & ? & ?)].
  - rewrite bool_decide_eq_true, elem_of_foldl_union. split.
    + intros [H|H]; [set_solver | eauto].
    + intros (? & ? & [= -> ->] & ?). by right.
Qed.

(** The predicate of [ArgumentsBlocker], with the guard on the number of
    flag tokens that precedes the subset test. *)
Lemma ArgumentsBlocker_spec (cmd : string) (args flags parts : list string) :
  ArgumentsBlocker cmd args flags parts = true ↔
  ∃ rest, parts = cmd :: rest
          ∧ take (length args) (positionals rest) = args
          ∧ length flags ≤ length (flagNames rest)
          ∧ ∀ f, f ∈ flags → f ∈ flagNames rest.
Proof.
  unfold ArgumentsBlocker. destruct parts as [|p0 rest].
  { split; [done | by intros (? & ? & _)]. }
  destruct (String.eqb_spec p0 cmd) as [->|Hne]; simpl.
  2:{ split; [done | intros (? & [= ? ?] & _); done]. }
  rewrite splitArgsFlags_spec.
  destruct (Nat.ltb_spec (length (positionals rest)) (length args)) as [Ha|Ha]; simpl.
  { split; [done|]. intros (? & [= <-] & Ht & _).
    apply (f_equal length) in Ht. rewrite length_take in Ht. lia. }
  destruct (Nat.ltb_spec (length (flagNames rest)) (length flags)) as [Hf|Hf].
  { split; [done|]. intros (? & [= <-] & _ & ? & _). lia. }
  rewrite andb_true_iff. unfold slices_Equal.
  rewrite bool_decide_eq_true, slice_IsSubset_spec. split.
  - intros (? & ? & ?). eauto.
  - intros (? & [= <-] & ? & ? & ?). eauto.
Qed.

End Blocklist.

(** [C7], as the code has it. [ArgumentsBlocker cmd args flags] blocks a
    token list if and only if its first token is [cmd], the first
    [length args] positional tokens after it are [args] in order, the line
    has at least as many flag tokens as [flags] has entries, and every
    entry of [flags] is the name of one of the line's flag tokens. With
    command ["git"], arguments [["push"]] and flags [["--force"]], the line
    [git push --force origin] is blocked, [git push origin] and [git pull]
    are not. *)
Theorem ArgumentsBlocker_blocks_iff :
  (∀ (cmd : string) (args flags parts : list string),
     Shell.ArgumentsBlocker cmd args flags parts = true ↔
     ∃ rest, parts = cmd :: rest
             ∧ take (length args) (positionals rest) = args
             ∧ length flags ≤ length (flagNames rest)
             ∧ ∀ f, f ∈ flags → f ∈ flagNames rest)
  ∧ Shell.ArgumentsBlocker "git" ["push"] ["--force"]
      ["git"; "push"; "--force"; "origin"] = true
  ∧ Shell.ArgumentsBlocker "git" ["push"] ["--force"] ["git"; "push"; "origin"] = false
  ∧ Shell.ArgumentsBlocker "git" ["push"] ["--force"] ["git"; "pull"] = false.
Proof.
  split; [exact ArgumentsBlocker_spec|].
  repeat split; vm_compute; reflexivity.
Qed.

(** [C7] as stated fails on a list of required flags that repeats a flag:
    the line [git push --force] starts with the command, its first
    positional token is [push] and the required flag [--force] is among its
    flag tokens, but it is not blocked, since it has one flag token and two
    flags are required. *)
Lemma ArgumentsBlocker_repeated_flag :
  let cmd := "git" in
  let args := ["push"] in
  let flags := ["--force"; "--force"] in
  let rest := ["push"; "--force"] in
  Shell.ArgumentsBlocker cmd args flags (cmd :: rest) = false
  ∧ take (length args) (positionals rest) = args
  ∧ ∀ f, f ∈ flags → f ∈ flagNames rest.
Proof.
  repeat split; try (vm_compute; reflexivity).
  intros f Hf. vm_compute.
  apply elem_of_cons in Hf as [->|Hf]; [by left|].
  apply elem_of_cons in Hf as [->|Hf]; [by left|].
  by apply elem_of_nil in Hf.
Qed.

(** Without a repeated required flag the guard is implied by the subset
    test, and the predicate is the one of the three conditions alone. *)
Lemma ArgumentsBlocker_NoDup (cmd : string) (args flags parts : list string) :
  NoDup flags →
  Shell.ArgumentsBlocker cmd args flags parts = true ↔
  ∃ rest, parts = cmd :: rest
          ∧ take (length args) (positionals rest) = args
          ∧ ∀ f, f ∈ flags → f ∈ flagNames rest.
Proof.
  intros Hnd. rewrite ArgumentsBlocker_spec. split.
  - intros (rest & ? & ? & _ & ?). eauto.
  - intros (rest & ? & ? & Hsub). exists rest. repeat split; try done.
    apply submseteq_length, NoDup_submseteq; done.
Qed.

(** [C10]. On the empty command line nothing is blocked: the predicates
    built by [CommandsBlocker] and by [ArgumentsBlocker] return false, and
    the block handler calls the next handler with the empty argument
    vector. *)
Theorem empty_command_line_never_blocked :
  (∀ cmds, Shell.CommandsBlocker cmds [] = false)
  ∧ (∀ cmd args flags, Shell.ArgumentsBlocker cmd args flags [] = false)
  ∧ (∀ blockFuncs next hc, Shell.blockHandler blockFuncs next hc [] = next hc []).
Proof. repeat split. Qed.

(** ** The exec handlers *)

Section ShellDelegation.

Import Shell.


Lemma shHandler_shell (fs : string → file) (next : ExecHandlerFunc)
    (hc : HandlerContext) (a0 : string) (rest : list string) :
  Filepath.Base a0 = "sh" ∨ Filepath.Base a0 = "bash" →
  shHandler fs next hc (a0 :: rest) =
    match shScan (Filepath.Base a0) rest with
    | inl err => Failed err
    | inr (scriptFile, scriptContent, params) =>
        if negb (String.eqb scriptContent "") then
          RunInProcess scriptContent params (Env hc) (Dir hc)
        else if negb (String.eqb scriptFile "") then
          match os_ReadFile fs scriptFile with
          | inl err => Failed err
          | inr content => RunInProcess content params (Env hc) (Dir hc)
          end
        else Failed (Filepath.Base a0 +:+ ": interactive mode not supported")
    end.
Proof. unfold shHandler. by intros [-> | ->]. Qed.

End ShellDelegation.




(** The scan marks a missing script by the empty string: an empty script
    text after [-c], or an empty file name, ends in the interactive-mode
    error as well. *)
Remark shHandler_empty_script (next : Shell.ExecHandlerFunc) (hc : Shell.HandlerContext) :
  Shell.shHandler (λ _, Shell.NoFile "ENOENT") next hc ["sh"; "-c"; ""]
  = Shell.Failed "sh: interactive mode not supported"
  ∧ Shell.shHandler (λ _, Shell.NoFile "ENOENT") next hc ["sh"; ""]
    = Shell.Failed "sh: interactive mode not supported".
Proof. split; reflexivity. Qed.

(** [C2], the code at the three files of the claim. A file that begins with
    the line [#!/bin/sh] is taken for a shell script, whatever follows. The
    file [#!/usr/bin/env bash] is not: of the four strings searched, two
    start with a space before [env], and in this line [env] follows a
    slash. The file [#!/usr/bin/python3] is not either. *)
Theorem isShellScript_on_shebangs :
  (∀ path body,
     Shell.isShellScript (λ _, Shell.Regular ("#!/bin/sh" +:+ LF +:+ body)) path = true)
  ∧ (∀ path,
       Shell.isShellScript (λ _, Shell.Regular ("#!/usr/bin/env bash" +:+ LF)) path = false)
  ∧ (∀ path,
       Shell.isShellScript (λ _, Shell.Regular ("#!/usr/bin/python3" +:+ LF)) path = false).
Proof.
  repeat split.
Qed.

(** The search runs over the whole header and not over its first line
    only: a script for another interpreter that names a shell within its
    first 128 bytes is taken for a shell script. *)
Remark isShellScript_whole_header (path : string) :
  Shell.isShellScript
    (λ _, Shell.Regular ("#!/usr/bin/python3" +:+ LF +:+ "# wraps /bin/sh" +:+ LF)) path
  = true.
Proof. reflexivity. Qed.

(** [C8], as the code has it. The mode is the value of [CRUSH_CORE_UTILS]
    when [strconv.ParseBool] accepts it; otherwise, and when the variable
    is unset, the mode is enabled exactly on Windows and on OpenBSD. When
    the mode is disabled, the handlers are the block handler alone, and the
    chain is the block handler followed by the default handler, which
    starts the child process. *)
Theorem useGoCoreUtils_selection :
  (∀ value GOOS v,
     Shell.strconv_ParseBool value = Some v → Shell.init value GOOS = v)
  ∧ Shell.strconv_ParseBool "" = None
  ∧ (∀ value GOOS,
       Shell.strconv_ParseBool value = None →
       (Shell.init value GOOS = true ↔ GOOS = "windows" ∨ GOOS = "openbsd"))
  ∧ (∀ fs os_Stat filepath_Join coreutils_ExecHandler blockFuncs,
       Shell.execHandlers fs os_Stat filepath_Join coreutils_ExecHandler false blockFuncs
       = [Shell.blockHandler blockFuncs]
       ∧ Shell.execHandler
           (Shell.execHandlers fs os_Stat filepath_Join coreutils_ExecHandler false
                               blockFuncs)
         = Shell.blockHandler blockFuncs Shell.DefaultExecHandler).
Proof.
  split; [|split; [done|split; [|done]]].
  - intros value GOOS v H. unfold Shell.init. by rewrite H.
  - intros value GOOS H. unfold Shell.init. rewrite H, orb_true_iff.
    by rewrite !String.eqb_eq.
Qed.

Lemma useGoCoreUtils_selection_witness :
  Shell.init "false" "openbsd" = false
  ∧ (Shell.init "yes" "windows" = true ↔ "windows" = "windows" ∨ "windows" = "openbsd").
Proof.
  destruct useGoCoreUtils_selection as (Hparsed & _ & Hdefault & _).
  split.
  - apply Hparsed. reflexivity.
  - apply Hdefault. reflexivity.
Defined.

(** [C8] as stated fails on Windows: the mode defaults to enabled there,
    although the package [security] compiled for Windows is the stub, as it
    is for Linux, where the mode defaults to disabled. *)
Lemma useGoCoreUtils_default_windows :
  Shell.init "" "windows" = true ∧ enforcing "windows" = false
  ∧ Shell.init "" "linux" = false ∧ enforcing "linux" = false.
Proof. repeat split. Qed.

(** ** The sandbox controller *)

Section Sandbox.

Import Security.

Variable os : OS.

Lemma run_bind {A B} (m : M A) (f : A → M B) (p : process) :
  (m ≫= f) p = f (m p).1 (m p).2.
Proof. unfold mbind, M_bind. by destruct (m p). Qed.

Lemma Unveil_result (path perms : string) (p : process) :
  (Unveil os path perms p).1 = unix_Unveil os path perms.
Proof. unfold Unveil. by destruct (unix_Unveil os path perms). Qed.

(** *** What the path-grant phase leaves alone *)

Lemma frames_ret {A} (a : A) : frames (mret a).
Proof. intros p. simpl. repeat split; exists []; by rewrite app_nil_r. Qed.

Lemma frames_bind {A B} (m : M A) (f : A → M B) :
  frames m → (∀ a, frames (f a)) → frames (m ≫= f).
Proof.
  intros Hm Hf p. rewrite run_bind.
  destruct (Hm p) as (Hi & Hl & Hp & [l1 Hlog] & [u1 Hunv]).
  destruct (Hf (m p).1 (m p).2) as (Hi' & Hl' & Hp' & [l2 Hlog'] & [u2 Hunv']).
  repeat split; try congruence.
  - exists (l1 ++ l2). by rewrite Hlog', Hlog, app_assoc.
  - exists (u1 ++ u2). by rewrite Hunv', Hunv, app_assoc.
Qed.

Lemma frames_slog_Debug (msg : string) (attrs : list (string * string)) :
  frames (slog_Debug msg attrs).
Proof. intros p. simpl. repeat split; eauto. exists []. by rewrite app_nil_r. Qed.

Lemma frames_Unveil (path perms : string) : frames (Unveil os path perms).
Proof.
  intros p. unfold Unveil. destruct (unix_Unveil os path perms); simpl;
    repeat split; eauto; exists []; by rewrite app_nil_r.
Qed.

Ltac frames :=
  repeat first
    [ apply frames_ret | apply frames_slog_Debug | apply frames_Unveil
    | apply frames_bind; [|intros ?]
    | match goal with
      | |- frames (match ?x with _ => _ end) => destruct x
      end ].

Lemma frames_unveilOrSkip path perms msg attrs :
  frames (unveilOrSkip os path perms msg attrs).
Proof. unfold unveilOrSkip. frames. Qed.

Lemma frames_unveilSystemPaths sps n : frames (unveilSystemPaths os sps n).
Proof.
  revert n. induction sps as [|sp sps IH]; intros n; simpl; [frames|].
  apply frames_bind; [frames|]. intros [err|]; [|apply IH].
  apply frames_bind; [frames|]. intros _. apply IH.
Qed.

Lemma frames_unveilXdgPaths xps : frames (unveilXdgPaths os xps).
Proof.
  induction xps as [|xp xps IH]; simpl; [frames|].
  apply frames_bind; [apply frames_unveilOrSkip | done].
Qed.

Lemma frames_unveilHome dataDir : frames (unveilHome os dataDir).
Proof.
  unfold unveilHome. destruct (os_UserHomeDir os) as [homeDir [err|]]; [frames|].
  destruct (negb _); [|frames].
  repeat (apply frames_bind; [|intros ?]);
    repeat match goal with
      | |- frames (if ?b then _ else _) => destruct b
      end;
    frames; auto using frames_unveilOrSkip, frames_unveilXdgPaths.
Qed.

Lemma frames_unveilTemp n : frames (unveilTemp os n).
Proof. unfold unveilTemp. frames. Qed.

Lemma frames_homeTemp dataDir n :
  frames (unveilHome os dataDir;; unveilTemp os n).
Proof.
  apply frames_bind; [apply frames_unveilHome | intros; apply frames_unveilTemp].
Qed.

Lemma frames_unveilWorkingDir dataDir workingDir n :
  frames (unveilWorkingDir os dataDir workingDir n).
Proof.
  unfold unveilWorkingDir.
  destruct (negb _); [destruct (filepath_Abs os workingDir) as [a [e|]]|].
  - frames.
  - apply frames_bind; [frames|]. intros [e|]; [frames|]. apply frames_homeTemp.
  - apply frames_homeTemp.
Qed.

Lemma frames_unveilDataDir dataDir workingDir n :
  frames (unveilDataDir os dataDir workingDir n).
Proof.
  unfold unveilDataDir.
  destruct (negb _); [destruct (filepath_Abs os dataDir) as [a [e|]]|].
  - frames.
  - apply frames_bind; [frames|]. intros [e|]; [frames|].
    apply frames_unveilWorkingDir.
  - apply frames_unveilWorkingDir.
Qed.

Lemma frames_setupUnveil dataDir workingDir :
  frames (setupUnveil os dataDir workingDir).
Proof.
  apply frames_bind; [apply frames_unveilSystemPaths|].
  intros n. apply frames_unveilDataDir.
Qed.

(** *** The error of the path-grant phase *)

Lemma bind_result_None {A B} (m : M A) (f : A → M (option B)) :
  (∀ a p, (f a p).1 = None) → ∀ p, ((m ≫= f) p).1 = None.
Proof. intros Hf p. by rewrite run_bind. Qed.

Lemma unveilTemp_result n p : (unveilTemp os n p).1 = None.
Proof.
  unfold unveilTemp. revert p.
  do 4 (apply bind_result_None; intros ?). done.
Qed.

Lemma homeTemp_result dataDir n p :
  ((unveilHome os dataDir;; unveilTemp os n) p).1 = None.
Proof. revert p. apply bind_result_None. intros _. apply unveilTemp_result. Qed.

Lemma unveilWorkingDir_result dataDir workingDir n p :
  (unveilWorkingDir os dataDir workingDir n p).1 = None
  ↔ mandatoryOK os workingDir "rwcx".
Proof.
  unfold unveilWorkingDir, mandatoryOK.
  destruct (String.eqb_spec workingDir "") as [->|Hne]; simpl.
  { split; [by left | intros _; apply homeTemp_result]. }
  destruct (filepath_Abs os workingDir) as [a [e|]]; simpl.
  { split; [done | by intros [?|[? _]]]. }
  rewrite run_bind, Unveil_result.
  destruct (unix_Unveil os a "rwcx") as [e|]; simpl.
  - split; [done | by intros [?|[_ ?]]].
  - split; [by right | intros _; apply homeTemp_result].
Qed.

Lemma unveilDataDir_result dataDir workingDir n p :
  (unveilDataDir os dataDir workingDir n p).1 = None
  ↔ mandatoryOK os dataDir "rwc" ∧ mandatoryOK os workingDir "rwcx".
Proof.
  unfold unveilDataDir, mandatoryOK at 1.
  destruct (String.eqb_spec dataDir "") as [->|Hne]; simpl.
  { rewrite unveilWorkingDir_result. split; [by split; [left|] | by intros [_ ?]]. }
  destruct (filepath_Abs os dataDir) as [a [e|]]; simpl.
  { split; [done | by intros [[?|[? _]] _]]. }
  rewrite run_bind, Unveil_result.
  destruct (unix_Unveil os a "rwc") as [e|]; simpl.
  - split; [done | by intros [[?|[_ ?]] _]].
  - rewrite unveilWorkingDir_result. split; [by split; [right|] | by intros [_ ?]].
Qed.

Lemma setupUnveil_result dataDir workingDir p :
  (setupUnveil os dataDir workingDir p).1 = None
  ↔ mandatoryOK os dataDir "rwc" ∧ mandatoryOK os workingDir "rwcx".
Proof. unfold setupUnveil. rewrite run_bind. apply unveilDataDir_result. Qed.

(** *** The best-effort grants *)

Lemma settled_mono (g : grant) (p p' : process) :
  settled os g p →
  (∃ more, logged p' = logged p ++ more) →
  (∃ more, unveiled p' = unveiled p ++ more) →
  settled os g p'.
Proof.
  unfold settled. intros H [l Hl] [u Hu]. rewrite Hl, Hu.
  destruct (unix_Unveil os _ _); apply elem_of_app; by left.
Qed.

Lemma settled_frames {A} (g : grant) (m : M A) (p : process) :
  frames m → settled os g p → settled os g (m p).2.
Proof.
  intros Hm H. destruct (Hm p) as (_ & _ & _ & Hl & Hu).
  by apply (settled_mono g p).
Qed.

Lemma attempts_bind_l {A B} (g : grant) (m : M A) (f : A → M B) :
  attempts os g m → (∀ a, frames (f a)) → attempts os g (m ≫= f).
Proof. intros Hm Hf p. rewrite run_bind. by apply settled_frames. Qed.

Lemma attempts_bind_r {A B} (g : grant) (m : M A) (f : A → M B) :
  (∀ a, attempts os g (f a)) → attempts os g (m ≫= f).
Proof. intros Hf p. rewrite run_bind. apply Hf. Qed.

Lemma attempts_unveilOrSkip path perms msg attrs :
  attempts os (Grant path perms msg attrs) (unveilOrSkip os path perms msg attrs).
Proof.
  intros p. unfold settled, unveilOrSkip, Unveil. rewrite run_bind. simpl.
  destruct (unix_Unveil os path perms); simpl; apply elem_of_app; right; by left.
Qed.

Lemma attempts_unveilSystemPaths sps n g :
  g ∈ (λ sp, Grant sp.1 sp.2 "unveil skipped" [("path", sp.1)]) <$> sps →
  attempts os g (unveilSystemPaths os sps n).
Proof.
  revert n. induction sps as [|sp sps IH]; intros n Hg.
  { by apply elem_of_nil in Hg. }
  rewrite fmap_cons in Hg. apply elem_of_cons in Hg as [->|Hg]; intros p; simpl.
  - rewrite run_bind. unfold Unveil.
    destruct (unix_Unveil os sp.1 sp.2) as [e|] eqn:E; simpl.
    + rewrite run_bind. apply settled_frames; [apply frames_unveilSystemPaths|].
      unfold settled. simpl. rewrite E. apply elem_of_app. right. by left.
    + apply settled_frames; [apply frames_unveilSystemPaths|].
      unfold settled. simpl. rewrite E. apply elem_of_app. right. by left.
  - rewrite run_bind. destruct (Unveil os sp.1 sp.2 p).1.
    + rewrite run_bind. by apply IH.
    + by apply IH.
Qed.

Lemma attempts_unveilXdgPaths xps g :
  g ∈ (λ xp, Grant xp "rwc" "unveil xdg path skipped" [("path", xp)]) <$> xps →
  attempts os g (unveilXdgPaths os xps).
Proof.
  induction xps as [|xp xps IH]; intros Hg.
  { by apply elem_of_nil in Hg. }
  rewrite fmap_cons in Hg. apply elem_of_cons in Hg as [->|Hg]; simpl.
  - apply attempts_bind_l; [apply attempts_unveilOrSkip|].
    intros _. apply frames_unveilXdgPaths.
  - apply attempts_bind_r. intros _. by apply IH.
Qed.

Lemma attempts_unveilHome dataDir g :
  g ∈ homeGrants os dataDir → attempts os g (unveilHome os dataDir).
Proof.
  unfold homeGrants, unveilHome.
  destruct (os_UserHomeDir os) as [homeDir [err|]].
  { by intros ?%elem_of_nil. }
  destruct (String.eqb homeDir ""); cbv beta iota zeta delta [negb].
  { by intros ?%elem_of_nil. }
  rewrite !elem_of_app. intros [Hg|[Hg|[Hg|Hg]]].
  - destruct (String.eqb _ _); cbv beta iota delta [negb] in *.
    { by apply elem_of_nil in Hg. }
    apply list_elem_of_singleton in Hg as ->.
    apply attempts_bind_l; [apply attempts_unveilOrSkip|].
    intros _. repeat (apply frames_bind; [|intros ?]);
      repeat match goal with
        | |- frames (if ?b then _ else _) => destruct b
        end;
      frames; auto using frames_unveilOrSkip, frames_unveilXdgPaths.
  - apply attempts_bind_r. intros _.
    apply attempts_bind_l; [by apply attempts_unveilXdgPaths|].
    intros _. repeat (apply frames_bind; [|intros ?]);
      repeat match goal with
        | |- frames (if ?b then _ else _) => destruct b
        end;
      frames; auto using frames_unveilOrSkip.
  - apply list_elem_of_singleton in Hg as ->.
    do 2 (apply attempts_bind_r; intros _).
    apply attempts_bind_l; [apply attempts_unveilOrSkip|].
    intros _. repeat (apply frames_bind; [|intros ?]);
      repeat match goal with
        | |- frames (if ?b then _ else _) => destruct b
        end;
      frames; auto using frames_unveilOrSkip.
  - apply list_elem_of_fmap in Hg as (name & -> & Hname).
    apply list_elem_of_filter in Hname as [Hset Hname].
    apply String.eqb_neq in Hset.
    do 3 (apply attempts_bind_r; intros _).
    apply elem_of_cons in Hname as [->|Hname].
    + apply attempts_bind_l.
      * simpl. rewrite Hset. apply attempts_unveilOrSkip.
      * intros _. cbv beta zeta. destruct (String.eqb _ _); frames.
    + apply list_elem_of_singleton in Hname as ->.
      apply attempts_bind_r. intros _. simpl. rewrite Hset.
      apply attempts_unveilOrSkip.
Qed.

Lemma attempts_unveilTemp n : attempts os (tempGrant os) (unveilTemp os n).
Proof.
  intros p. unfold tempGrant, unveilTemp, settled.
  destruct (os_MkdirAll os _); simpl; rewrite !run_bind; simpl; unfold Unveil;
    destruct (unix_Unveil os _ "rwc"); simpl;
    rewrite <- ?app_assoc; rewrite ?elem_of_app; rewrite ?elem_of_cons; auto.
Qed.

Lemma attempts_homeTemp dataDir n g :
  g ∈ homeGrants os dataDir ++ [tempGrant os] →
  attempts os g (unveilHome os dataDir;; unveilTemp os n).
Proof.
  intros [Hg|Hg]%elem_of_app.
  - apply attempts_bind_l; [by apply attempts_unveilHome|].
    intros _. apply frames_unveilTemp.
  - apply list_elem_of_singleton in Hg as ->.
    apply attempts_bind_r. intros _. apply attempts_unveilTemp.
Qed.

Lemma attempts_unveilWorkingDir dataDir workingDir n g :
  mandatoryOK os workingDir "rwcx" →
  g ∈ homeGrants os dataDir ++ [tempGrant os] →
  attempts os g (unveilWorkingDir os dataDir workingDir n).
Proof.
  intros Hok Hg. unfold unveilWorkingDir.
  destruct (String.eqb_spec workingDir "") as [->|Hne]; simpl.
  { by apply attempts_homeTemp. }
  destruct Hok as [?|[Habs Hunveil]]; [done|].
  destruct (filepath_Abs os workingDir) as [a [e|]]; simpl in *; [done|].
  intros p. rewrite run_bind, Unveil_result, Hunveil. by apply attempts_homeTemp.
Qed.

Lemma attempts_unveilDataDir dataDir workingDir n g :
  mandatoryOK os dataDir "rwc" →
  mandatoryOK os workingDir "rwcx" →
  g ∈ homeGrants os dataDir ++ [tempGrant os] →
  attempts os g (unveilDataDir os dataDir workingDir n).
Proof.
  intros Hok Hwork Hg. unfold unveilDataDir.
  destruct (String.eqb_spec dataDir "") as [->|Hne]; simpl.
  { by apply attempts_unveilWorkingDir. }
  destruct Hok as [?|[Habs Hunveil]]; [done|].
  destruct (filepath_Abs os dataDir) as [a [e|]]; simpl in *; [done|].
  intros p. rewrite run_bind, Unveil_result, Hunveil.
  by apply attempts_unveilWorkingDir.
Qed.

Lemma attempts_setupUnveil dataDir workingDir g :
  mandatoryOK os dataDir "rwc" →
  mandatoryOK os workingDir "rwcx" →
  g ∈ bestEffortGrants os dataDir →
  attempts os g (setupUnveil os dataDir workingDir).
Proof.
  intros Hdata Hwork [Hg|Hg]%elem_of_app.
  - apply attempts_bind_l; [by apply attempts_unveilSystemPaths|].
    intros n. apply frames_unveilDataDir.
  - apply attempts_bind_r. intros n. by apply attempts_unveilDataDir.
Qed.

(** *** [Init] and [Shutdown], run *)

Lemma Init_initialized dataDir workingDir p :
  initialized p = true →
  Init os dataDir workingDir p = (Some "security already initialized", p).
Proof. intros H. unfold Init. rewrite run_bind. simpl. by rewrite H. Qed.

Lemma Init_run dataDir workingDir p :
  initialized p = false →
  Init os dataDir workingDir p =
    let r := setupUnveil os dataDir workingDir p in
    match r.1 with
    | Some err => (Some ("unveil setup failed: " +:+ err), r.2)
    | None =>
        match unix_UnveilBlock os with
        | Some err => (Some ("unveil lock failed: " +:+ err), r.2)
        | None =>
            match unix_PledgePromises os (promises r.2) allPromises with
            | Some err =>
                (Some ("pledge failed: " +:+ err),
                 Process (initialized r.2) (unveiled r.2) true (promises r.2)
                         (logged r.2))
            | None =>
                (None,
                 Process true (unveiled r.2) true (Some allPromises)
                         (logged r.2
                          ++ [("openbsd security: sandbox active",
                               [("promises", allPromises); ("data_dir", dataDir);
                                ("working_dir", workingDir)])]))
            end
        end
    end.
Proof.
  intros H. unfold Init. rewrite run_bind. simpl. rewrite H. rewrite run_bind.
  destruct (setupUnveil os dataDir workingDir p) as [[e|] p1]; simpl; [done|].
  rewrite run_bind. unfold UnveilBlock.
  destruct (unix_UnveilBlock os); simpl; [done|].
  rewrite run_bind. unfold PledgePromises. simpl.
  by destruct (unix_PledgePromises os (promises p1) allPromises).
Qed.

Lemma Shutdown_run p :
  Shutdown os p =
    if initialized p then
      match unix_PledgePromises os (promises p) shutdownPromises with
      | Some err =>
          (Some err,
           Process (initialized p) (unveiled p) (locked p) (promises p)
                   (logged p ++ [("pledge shutdown failed", [("error", err)])]))
      | None =>
          (None,
           Process (initialized p) (unveiled p) (locked p) (Some shutdownPromises)
                   (logged p ++ [("openbsd security: shutdown promises active", [])]))
      end
    else (None, p).
Proof.
  unfold Shutdown. rewrite run_bind. simpl.
  destruct (initialized p) eqn:Hi; simpl; [|done].
  rewrite run_bind. unfold PledgePromises.
  destruct (unix_PledgePromises os (promises p) shutdownPromises); simpl;
    rewrite run_bind; simpl; by rewrite Hi.
Qed.

Lemma Init_success dataDir workingDir p p1 :
  Init os dataDir workingDir p = (None, p1) →
  initialized p = false ∧ initialized p1 = true ∧ locked p1 = true
  ∧ promises p1 = Some allPromises.
Proof.
  destruct (initialized p) eqn:Hi.
  { by rewrite Init_initialized. }
  rewrite Init_run by done. cbv zeta.
  destruct (setupUnveil os dataDir workingDir p) as [[e|] p']; simpl; [done|].
  destruct (unix_UnveilBlock os); [done|].
  destruct (unix_PledgePromises os (promises p') allPromises); [done|].
  by intros [= <-].
Qed.

End Sandbox.

(** [C1], as the code has it. After a successful [Init] and a successful
    [Shutdown], [IsInitialized] returns true: [Shutdown] narrows the
    promises to [shutdownPromises] and leaves the variable [initialized],
    which [IsInitialized] returns, as [Init] set it. *)
Theorem IsInitialized_after_Shutdown
    (os : Security.OS) (dataDir workingDir : string) (p0 p1 p2 : Security.process) :
  Security.Init os dataDir workingDir p0 = (None, p1) →
  Security.Shutdown os p1 = (None, p2) →
  Security.IsInitialized p2 = (true, p2)
  ∧ Security.initialized p2 = Security.initialized p1
  ∧ Security.promises p2 = Some Security.shutdownPromises.
Proof.
  intros (_ & Hi & _)%Init_success. rewrite Shutdown_run, Hi.
  destruct (Security.unix_PledgePromises os _ _); [done|].
  by intros [= <-].
Qed.

Lemma IsInitialized_after_Shutdown_witness :
  let os := openbsdHost [] in
  let p1 := (Security.Init os "/var/crush" "proj" Security.start).2 in
  let p2 := (Security.Shutdown os p1).2 in
  Security.IsInitialized p2 = (true, p2)
  ∧ Security.initialized p2 = Security.initialized p1
  ∧ Security.promises p2 = Some Security.shutdownPromises.
Proof.
  intros os p1 p2.
  apply (IsInitialized_after_Shutdown os "/var/crush" "proj" Security.start p1 p2);
    vm_compute; reflexivity.
Defined.

(** [C1] as stated fails: on a host where every call succeeds, [Init]
    and then [Shutdown] return no error and [IsInitialized] returns true. *)
Lemma IsInitialized_not_false_after_Shutdown :
  let os := openbsdHost [] in
  let r1 := Security.Init os "/var/crush" "proj" Security.start in
  let r2 := Security.Shutdown os r1.2 in
  r1.1 = None ∧ r2.1 = None ∧ (Security.IsInitialized r2.2).1 ≠ false.
Proof. vm_compute. repeat split. discriminate. Qed.

(** [C3]. In the path-grant phase of a first [Init], when the data
    directory and the working directory raise no error, every best-effort
    grant (system paths, home directory paths, Go directories, temporary
    directory) is either unveiled or logged as skipped with its error, the
    phase returns no error, and [Init] goes on: it succeeds exactly when
    the lock and the pledge do. When a mandatory directory cannot be
    resolved or unveiled, [Init] returns the error of the phase, and
    nothing is reported: [initialized] stays false, [unveil] is not locked
    and no promise is pledged by the call. *)
Theorem Init_path_grants
    (os : Security.OS) (dataDir workingDir : string) (p : Security.process) :
  Security.initialized p = false →
  let r := Security.Init os dataDir workingDir p in
  (mandatoryOK os dataDir "rwc" ∧ mandatoryOK os workingDir "rwcx" →
     (∀ g, g ∈ bestEffortGrants os dataDir → settled os g r.2)
     ∧ (Security.setupUnveil os dataDir workingDir p).1 = None
     ∧ (r.1 = None ↔
        Security.unix_UnveilBlock os = None
        ∧ Security.unix_PledgePromises os (Security.promises p) Security.allPromises
          = None))
  ∧ (¬ (mandatoryOK os dataDir "rwc" ∧ mandatoryOK os workingDir "rwcx") →
     (∃ err, r.1 = Some ("unveil setup failed: " +:+ err))
     ∧ Security.initialized r.2 = false
     ∧ Security.locked r.2 = Security.locked p
     ∧ Security.promises r.2 = Security.promises p).
Proof.
  intros Hi r. subst r. rewrite Init_run by done. cbv zeta.
  pose proof (setupUnveil_result os dataDir workingDir p) as Hres.
  destruct (frames_setupUnveil os dataDir workingDir p) as (Hi' & Hl' & Hp' & _ & _).
  split.
  - intros [Hdata Hwork].
    pose proof (λ g Hg, attempts_setupUnveil os dataDir workingDir g Hdata Hwork Hg p)
      as Hsettled.
    assert (Hnone : (Security.setupUnveil os dataDir workingDir p).1 = None)
      by by apply Hres.
    rewrite Hnone, Hp'. split; [|split; [done|]].
    + intros g Hg. specialize (Hsettled g Hg).
      destruct (Security.unix_UnveilBlock os); [done|].
      destruct (Security.unix_PledgePromises os _ _); [done|].
      eapply settled_mono; [exact Hsettled| |]; simpl; eauto.
      exists []. by rewrite app_nil_r.
    + destruct (Security.unix_UnveilBlock os); [by split; [|intros [? _]]|].
      destruct (Security.unix_PledgePromises os _ _); [by split; [|intros [_ ?]]|].
      done.
  - intros Hbad.
    assert (Hne : (Security.setupUnveil os dataDir workingDir p).1 ≠ None)
      by (intros E; by apply Hbad, Hres).
    destruct (Security.setupUnveil os dataDir workingDir p).1 as [err|]; [|done].
    rewrite <- Hi. eauto.
Qed.

Lemma Init_path_grants_witness :
  let os := openbsdHost ["/sbin"; "/home/dev/.gitconfig"] in
  let r := Security.Init os "/var/crush" "proj" Security.start in
  r.1 = None
  ∧ settled os (Grant "/sbin" "r" "unveil skipped" [("path", "/sbin")]) r.2
  ∧ settled os (Grant "/home/dev/.gitconfig" "r" "unveil gitconfig skipped" []) r.2.
Proof.
  intros os r.
  destruct (Init_path_grants os "/var/crush" "proj" Security.start eq_refl)
    as [Hok _].
  destruct Hok as (Hsettled & _ & Hr).
  { split; right; split; reflexivity. }
  split; [|split].
  - apply Hr. split; reflexivity.
  - apply Hsettled. vm_compute. do 5 right. left.
  - apply Hsettled. vm_compute. do 19 right. left.
Defined.

(** [C4]. After a successful [Init], a second [Init], whatever its
    arguments and whatever the system would answer, returns the error
    [security already initialized] and leaves the whole state as it was:
    the variable, the unveiled paths, the lock, the promises and the
    log. *)
Theorem Init_twice
    (os : Security.OS) (dataDir workingDir : string) (p0 p1 : Security.process) :
  Security.Init os dataDir workingDir p0 = (None, p1) →
  ∀ os' dataDir' workingDir',
    Security.Init os' dataDir' workingDir' p1
    = (Some "security already initialized", p1).
Proof.
  intros (_ & Hi & _)%Init_success os' dataDir' workingDir'.
  by apply Init_initialized.
Qed.

Lemma Init_twice_witness :
  let os := openbsdHost [] in
  let p1 := (Security.Init os "/var/crush" "proj" Security.start).2 in
  Security.Init (openbsdHost ["/tmp"]) "/other" "" p1
  = (Some "security already initialized", p1).
Proof.
  intros os p1.
  apply (Init_twice os "/var/crush" "proj" Security.start p1).
  vm_compute. reflexivity.
Defined.

(** [C5]. The tokens of [allPromises] are the fourteen promises of the
    interface, as a set, and the only token of [shutdownPromises] is
    [stdio]. [Init] requests [allPromises]: once the grants and the lock
    have succeeded, what a first [Init] returns is the answer of the
    kernel to the pledge of [allPromises], and when the kernel accepts,
    the promises in force are [allPromises]; in every case the promises
    after [Init] are [allPromises] if it returns no error and are
    unchanged otherwise. [Shutdown] requests [shutdownPromises]: on an
    initialized process it returns the answer of the kernel to the pledge
    of [shutdownPromises], and the promises after it are
    [shutdownPromises] if the pledge is accepted and are unchanged
    otherwise. *)
Theorem pledged_promises :
  (list_to_set (Strings.Fields Security.allPromises) : gset string)
  = {[ "cpath"; "dns"; "dpath"; "exec"; "fattr"; "flock"; "getpw"; "inet";
       "proc"; "rpath"; "stdio"; "tty"; "unix"; "wpath" ]}
  ∧ length (Strings.Fields Security.allPromises) = 14
  ∧ Strings.Fields Security.shutdownPromises = ["stdio"]
  ∧ (∀ os dataDir workingDir p,
       let r := Security.Init os dataDir workingDir p in
       Security.promises r.2
       = match r.1 with
         | None => Some Security.allPromises
         | Some _ => Security.promises p
         end)
  ∧ (∀ os p,
       let r := Security.Shutdown os p in
       Security.promises r.2
       = if Security.initialized p then
           match r.1 with
           | None => Some Security.shutdownPromises
           | Some _ => Security.promises p
           end
         else Security.promises p)
  ∧ (∀ os dataDir workingDir p,
       Security.initialized p = false →
       mandatoryOK os dataDir "rwc" →
       mandatoryOK os workingDir "rwcx" →
       Security.unix_UnveilBlock os = None →
       let r := Security.Init os dataDir workingDir p in
       r.1 = (λ err, "pledge failed: " +:+ err)
               <$> Security.unix_PledgePromises os (Security.promises p)
                                                Security.allPromises
       ∧ (Security.unix_PledgePromises os (Security.promises p)
                                       Security.allPromises = None →
          Security.promises r.2 = Some Security.allPromises
          ∧ Security.initialized r.2 = true))
  ∧ (∀ os p,
       Security.initialized p = true →
       let r := Security.Shutdown os p in
       r.1 = Security.unix_PledgePromises os (Security.promises p)
                                          Security.shutdownPromises
       ∧ (Security.unix_PledgePromises os (Security.promises p)
                                       Security.shutdownPromises = None →
          Security.promises r.2 = Some Security.shutdownPromises)).
Proof.
  split; [vm_compute; reflexivity|].
  split; [reflexivity|]. split; [reflexivity|]. split; [|split; [|split]].
  - intros os dataDir workingDir p r. subst r.
    destruct (Security.initialized p) eqn:Hi.
    { by rewrite Init_initialized. }
    rewrite Init_run by done. cbv zeta.
    destruct (frames_setupUnveil os dataDir workingDir p) as (_ & _ & Hp & _ & _).
    destruct (Security.setupUnveil os dataDir workingDir p).1; [done|].
    destruct (Security.unix_UnveilBlock os); [done|].
    by destruct (Security.unix_PledgePromises os _ _).
  - intros os p r. subst r. rewrite Shutdown_run.
    destruct (Security.initialized p); [|done].
    by destruct (Security.unix_PledgePromises os _ _).
  - intros os dataDir workingDir p Hi Hdata Hwork Hlock r. subst r.
    rewrite Init_run by done. cbv zeta.
    destruct (frames_setupUnveil os dataDir workingDir p) as (_ & _ & Hp & _ & _).
    rewrite (proj2 (setupUnveil_result os dataDir workingDir p)) by done.
    rewrite Hlock, Hp.
    by destruct (Security.unix_PledgePromises os _ _).
  - intros os p Hi r. subst r. rewrite Shutdown_run, Hi.
    by destruct (Security.unix_PledgePromises os _ _).
Qed.

Lemma pledged_promises_witness :
  let r := Security.Init (openbsdHost []) "/var/crush" "proj" Security.start in
  let r' := Security.Shutdown (openbsdHost []) r.2 in
  (r.1 = None ∧ Security.promises r.2 = Some Security.allPromises)
  ∧ (r'.1 = None ∧ Security.promises r'.2 = Some Security.shutdownPromises)
  ∧ (Security.Init (hostRefusing Security.allPromises) "/var/crush" "proj"
                   Security.start).1
    = Some "pledge failed: operation not permitted"
  ∧ (Security.Shutdown (hostRefusing Security.shutdownPromises) r.2).1
    = Some "operation not permitted".
Proof.
  intros r r'. subst r'.
  destruct pledged_promises as (_ & _ & _ & _ & _ & HInit & HShutdown).
  assert (Hok : ∀ dir perms, mandatoryOK (openbsdHost []) dir perms)
    by (intros dir perms; right; split; [by unfold openbsdHost; simpl;
          destruct (Strings.HasPrefix dir "/") | reflexivity]).
  assert (Hok' : ∀ refused dir perms, mandatoryOK (hostRefusing refused) dir perms)
    by (intros refused dir perms; right; split; [by unfold hostRefusing, openbsdHost;
          simpl; destruct (Strings.HasPrefix dir "/") | reflexivity]).
  destruct (HInit (openbsdHost []) "/var/crush" "proj" Security.start)
    as [Hr Hpromises]; [reflexivity | apply Hok | apply Hok | reflexivity |].
  split; [split; [exact Hr | apply Hpromises; reflexivity]|].
  destruct (HShutdown (openbsdHost []) r.2) as [Hr' Hpromises'].
  { apply Hpromises. reflexivity. }
  split; [split; [rewrite Hr'; vm_compute; reflexivity
                 | apply Hpromises'; vm_compute; reflexivity]|].
  split.
  - destruct (HInit (hostRefusing Security.allPromises) "/var/crush" "proj"
                    Security.start)
      as [Hrefused _]; [reflexivity | apply Hok' | apply Hok' | reflexivity |].
    exact Hrefused.
  - destruct (HShutdown (hostRefusing Security.shutdownPromises) r.2) as [Hrefused _].
    { apply Hpromises. reflexivity. }
    rewrite Hrefused. vm_compute. reflexivity.
Defined.

(** [C9]. [Shutdown] on a process that was never initialized returns no
    error and changes nothing. After a successful [Init], each of two
    calls of [Shutdown] returns what the kernel answers to the pledge of
    [shutdownPromises], so both succeed when the kernel accepts it; the
    promises after each call are those before it or [shutdownPromises],
    and once the first call has succeeded they are [shutdownPromises] and
    stay so; the variable, the unveiled paths and the lock are untouched.
    On the other platforms [Shutdown] returns no error. *)
Theorem Shutdown_idempotent :
  (∀ os p, Security.initialized p = false → Security.Shutdown os p = (None, p))
  ∧ (∀ os dataDir workingDir p0 p1,
       Security.Init os dataDir workingDir p0 = (None, p1) →
       let r1 := Security.Shutdown os p1 in
       let r2 := Security.Shutdown os r1.2 in
       r1.1 = Security.unix_PledgePromises os (Some Security.allPromises)
                                           Security.shutdownPromises
       ∧ r2.1 = Security.unix_PledgePromises os (Security.promises r1.2)
                                             Security.shutdownPromises
       ∧ (Security.promises r1.2 = Some Security.allPromises
          ∨ Security.promises r1.2 = Some Security.shutdownPromises)
       ∧ (Security.promises r2.2 = Security.promises r1.2
          ∨ Security.promises r2.2 = Some Security.shutdownPromises)
       ∧ (r1.1 = None →
          Security.promises r1.2 = Some Security.shutdownPromises
          ∧ Security.promises r2.2 = Some Security.shutdownPromises)
       ∧ (Security.unix_PledgePromises os (Some Security.allPromises)
                                       Security.shutdownPromises = None →
          Security.unix_PledgePromises os (Some Security.shutdownPromises)
                                       Security.shutdownPromises = None →
          r1.1 = None ∧ r2.1 = None)
       ∧ Security.initialized r2.2 = true
       ∧ Security.unveiled r2.2 = Security.unveiled p1
       ∧ Security.locked r2.2 = Security.locked p1)
  ∧ SecurityStub.Shutdown = None.
Proof.
  split; [|split; [|done]].
  - intros os p Hi. by rewrite Shutdown_run, Hi.
  - intros os dataDir workingDir p0 p1 (_ & Hi & _ & Hp)%Init_success r1 r2.
    subst r1 r2. rewrite (Shutdown_run os p1), Hi, Hp.
    destruct (Security.unix_PledgePromises os (Some Security.allPromises) _)
      as [e1|] eqn:E1; simpl.
    + rewrite Shutdown_run. simpl. rewrite ?Hi, ?Hp, E1. simpl.
      repeat split; auto; done.
    + rewrite Shutdown_run. simpl. rewrite ?Hi.
      destruct (Security.unix_PledgePromises os (Some Security.shutdownPromises) _)
        as [e2|] eqn:E2; simpl; repeat split; auto; done.
Qed.

Lemma Shutdown_idempotent_witness :
  let os := openbsdHost [] in
  let p1 := (Security.Init os "/var/crush" "proj" Security.start).2 in
  let r1 := Security.Shutdown os p1 in
  let r2 := Security.Shutdown os r1.2 in
  Security.Shutdown os Security.start = (None, Security.start)
  ∧ r1.1 = None ∧ r2.1 = None.
Proof.
  intros os p1 r1 r2.
  destruct Shutdown_idempotent as (Hnoop & Htwice & _).
  split; [by apply Hnoop|].
  destruct (Htwice os "/var/crush" "proj" Security.start p1) as (_ & _ & _ & _ & _ & H & _).
  { vm_compute. reflexivity. }
  apply H; reflexivity.
Defined.

(** * Further properties of the code *)

(** ** The block predicates *)

Section BlocklistMore.

Import Shell.

Lemma positionals_app (l1 l2 : list string) :
  positionals (l1 ++ l2) = positionals l1 ++ positionals l2.
Proof. apply filter_app. Qed.

Lemma flagNames_app (l1 l2 : list string) :
  flagNames (l1 ++ l2) = flagNames l1 ++ flagNames l2.
Proof. unfold flagNames. by rewrite filter_app, fmap_app. Qed.

Lemma positionals_flag (t : string) (l : list string) :
  isFlag t = true → positionals (t :: l) = positionals l.
Proof. intros H. unfold positionals. rewrite filter_cons_False; [done | congruence]. Qed.

Lemma flagNames_flag (t : string) (l : list string) :
  isFlag t = true → flagNames (t :: l) = flagName t :: flagNames l.
Proof. intros H. unfold flagNames. by rewrite filter_cons_True. Qed.

Lemma split_lengths (l : list string) :
  length (positionals l) + length (flagNames l) = length l.
Proof.
  unfold positionals, flagNames. rewrite length_fmap.
  induction l as [|t l IH]; [done|].
  destruct (isFlag t) eqn:Ht.
  - rewrite filter_cons_False, filter_cons_True by congruence. simpl. lia.
  - rewrite filter_cons_True, filter_cons_False by congruence. simpl. lia.
Qed.

Lemma IndexByte_cut (t : string) (c : ascii) (n : nat) :
  Strings.IndexByte t c = Some n →
  Strings.IndexByte (String.substring 0 n t) c = None.
Proof.
  revert n. induction t as [|a t IH]; intros n; simpl; [done|].
  destruct (Ascii.eqb a c) eqn:Ha.
  - by intros [= <-].
  - destruct (Strings.IndexByte t c) as [m|] eqn:E; simpl; [|done].
    intros [= <-]. simpl. rewrite Ha. by rewrite (IH m).
Qed.

Lemma flagName_no_equals (t : string) :
  Strings.IndexByte (flagName t) "="%char = None.
Proof.
  unfold flagName. destruct (Strings.IndexByte t "=") as [n|] eqn:E; [|done].
  by apply IndexByte_cut.
Qed.

Lemma prefix_empty (t : string) : String.prefix "" t = true.
Proof. by destruct t. Qed.

Lemma prefix_cons (a b : ascii) (s t : string) :
  String.prefix (String a s) (String b t) = true ↔ a = b ∧ String.prefix s t = true.
Proof.
  cbn [String.prefix]. destruct (ascii_dec a b) as [->|Hne].
  - tauto.
  - split; [done | by intros [? _]].
Qed.

Lemma prefix_app (s t : string) : String.prefix s (s +:+ t) = true.
Proof.
  induction s as [|a s IH]; [apply prefix_empty|].
  change (String a s +:+ t) with (String a (s +:+ t)). by apply prefix_cons.
Qed.

Lemma HasPrefix_dash (t : string) :
  Strings.HasPrefix t "-" = true ↔ ∃ t', t = String "-" t'.
Proof.
  unfold Strings.HasPrefix. destruct t as [|a t].
  - split; [done | by intros [? ?]].
  - rewrite prefix_cons. split.
    + intros [<- _]. eauto.
    + intros [t' [= <- _]]. split; [done | apply prefix_empty].
Qed.

Lemma flagName_dash (t : string) : isFlag t = true → isFlag (flagName t) = true.
Proof.
  unfold isFlag. intros [t' ->]%HasPrefix_dash. apply HasPrefix_dash.
  unfold flagName. cbn [Strings.IndexByte].
  change (Ascii.eqb "-" "=") with false. cbv iota.
  destruct (Strings.IndexByte t' "=") as [n|]; simpl; eauto.
Qed.

End BlocklistMore.

(** [X1]. The predicate of [CommandsBlocker] blocks a command line exactly
    when the line is not empty and its first token is one of [cmds]; the
    tokens after the first are not looked at, and neither the order of
    [cmds] nor a repetition in it matters. *)
Theorem CommandsBlocker_blocks_iff (cmds args : list string) :
  (Shell.CommandsBlocker cmds args = true ↔
   ∃ a0 rest, args = a0 :: rest ∧ a0 ∈ cmds)
  ∧ (∀ cmds', (∀ c, c ∈ cmds ↔ c ∈ cmds') →
       Shell.CommandsBlocker cmds' args = Shell.CommandsBlocker cmds args).
Proof.
  split; [apply CommandsBlocker_spec|].
  intros cmds' Hsame. apply Bool.eq_iff_eq_true.
  rewrite !CommandsBlocker_spec. by setoid_rewrite Hsame.
Qed.

Lemma CommandsBlocker_blocks_iff_witness :
  Shell.CommandsBlocker ["wget"; "curl"; "wget"] ["curl"; "-s"; "http://x"]
  = Shell.CommandsBlocker ["curl"; "wget"] ["curl"; "-s"; "http://x"].
Proof.
  apply (CommandsBlocker_blocks_iff ["curl"; "wget"] ["curl"; "-s"; "http://x"]).
  intros c. rewrite !elem_of_cons. tauto.
Defined.

(** [X2]. [splitArgsFlags] is a stable partition: the first list is the
    tokens without the prefix ["-"], in their order, the second the names
    of the other tokens, in their order; no token is lost or added. A flag
    in the second list still begins with ["-"] and holds no ['=']. *)
Theorem splitArgsFlags_partition (parts : list string) :
  Shell.splitArgsFlags parts = (positionals parts, flagNames parts)
  ∧ length (Shell.splitArgsFlags parts).1 + length (Shell.splitArgsFlags parts).2
    = length parts
  ∧ Forall (λ a, Strings.HasPrefix a "-" = false) (Shell.splitArgsFlags parts).1
  ∧ Forall (λ f, Strings.HasPrefix f "-" = true
                 ∧ Strings.IndexByte f "="%char = None)
           (Shell.splitArgsFlags parts).2.
Proof.
  rewrite splitArgsFlags_spec. simpl. split; [done|]. split; [apply split_lengths|].
  split.
  - apply Forall_forall. intros a Ha.
    by apply list_elem_of_filter in Ha as [Ha _].
  - unfold flagNames. apply Forall_fmap, Forall_forall. intros t Ht.
    apply list_elem_of_filter in Ht as [Ht _]. simpl. split.
    + by apply flagName_dash.
    + apply flagName_no_equals.
Qed.

(** [X3]. A line that [ArgumentsBlocker] blocks stays blocked when a flag
    token is inserted anywhere after the command name, and when tokens of
    any kind are appended at its end. *)
Theorem ArgumentsBlocker_more_tokens
    (cmd : string) (args flags : list string) (c : string) (l1 l2 : list string) :
  Shell.ArgumentsBlocker cmd args flags (c :: l1 ++ l2) = true →
  (∀ t, Strings.HasPrefix t "-" = true →
        Shell.ArgumentsBlocker cmd args flags (c :: l1 ++ t :: l2) = true)
  ∧ (∀ more, Shell.ArgumentsBlocker cmd args flags ((c :: l1 ++ l2) ++ more) = true).
Proof.
  intros (rest & [= -> <-] & Hargs & Hlen & Hflags)%ArgumentsBlocker_spec.
  assert (Hle : length args ≤ length (positionals (l1 ++ l2))).
  { apply (f_equal length) in Hargs. rewrite length_take in Hargs. lia. }
  split.
  - intros t Ht. apply ArgumentsBlocker_spec. exists (l1 ++ t :: l2).
    rewrite positionals_app, positionals_flag, <- positionals_app by done.
    rewrite flagNames_app, flagNames_flag by done.
    rewrite flagNames_app in Hlen, Hflags.
    split; [done|]. split; [done|]. split.
    + rewrite length_app in *. simpl. lia.
    + intros f Hf. specialize (Hflags f Hf).
      rewrite elem_of_app in *. rewrite elem_of_cons. tauto.
  - intros more. change ((cmd :: l1 ++ l2) ++ more) with (cmd :: (l1 ++ l2) ++ more).
    apply ArgumentsBlocker_spec. exists ((l1 ++ l2) ++ more).
    rewrite positionals_app, flagNames_app.
    split; [done|]. split; [by rewrite take_app_le|]. split.
    + rewrite length_app. lia.
    + intros f Hf. apply elem_of_app. left. by apply Hflags.
Qed.

Lemma ArgumentsBlocker_more_tokens_witness :
  Shell.ArgumentsBlocker "git" ["push"] ["--force"]
    ["git"; "push"; "-v"; "--force"; "origin"] = true.
Proof.
  apply (ArgumentsBlocker_more_tokens "git" ["push"] ["--force"] "git"
           ["push"] ["--force"; "origin"]).
  - vm_compute. reflexivity.
  - reflexivity.
Defined.

(** [X4]. [ArgumentsBlocker] compares the required arguments with the
    first tokens that are not flags: when the first such token after the
    command name is not the first required argument, the line is not
    blocked, whatever follows (so the value of an option, written as a
    token of its own before the subcommand, unblocks the line). *)
Theorem ArgumentsBlocker_leading_positional
    (cmd a : string) (args flags rest : list string) (x : string) (more : list string) :
  positionals rest = x :: more →
  x ≠ a →
  Shell.ArgumentsBlocker cmd (a :: args) flags (cmd :: rest) = false.
Proof.
  intros Hpos Hne. apply not_true_is_false.
  intros (rest' & [= <-] & Hargs & _)%ArgumentsBlocker_spec.
  rewrite Hpos in Hargs. simpl in Hargs. congruence.
Qed.

Lemma ArgumentsBlocker_leading_positional_witness :
  Shell.ArgumentsBlocker "git" ["push"] ["--force"]
    ["git"; "-C"; "repo"; "push"; "--force"] = false.
Proof.
  apply (ArgumentsBlocker_leading_positional "git" "push" [] ["--force"]
           ["-C"; "repo"; "push"; "--force"] "repo" ["push"]).
  - vm_compute. reflexivity.
  - discriminate.
Defined.

(** [X5]. Without required arguments and flags, [ArgumentsBlocker] is the
    predicate of [CommandsBlocker] for the one command. *)
Theorem ArgumentsBlocker_no_requirement (cmd : string) (parts : list string) :
  Shell.ArgumentsBlocker cmd [] [] parts = Shell.CommandsBlocker [cmd] parts.
Proof.
  apply Bool.eq_iff_eq_true. rewrite ArgumentsBlocker_spec, CommandsBlocker_spec.
  split.
  - intros (rest & -> & _). exists cmd, rest. split; [done | by left].
  - intros (a0 & rest & -> & ->%list_elem_of_singleton). exists rest.
    split; [done|]. split; [done|]. split; [simpl; lia|].
    by intros f ?%elem_of_nil.
Qed.

(** ** The exec handlers, further *)

(** [X6]. Block handlers compose: the handler of a list of predicates
    followed by another list is the handler of the first list placed before
    the handler of the second, and the handler of no predicate is the next
    handler. *)
Theorem blockHandler_app
    (blockFuncs1 blockFuncs2 : list Shell.BlockFunc) (next : Shell.ExecHandlerFunc)
    (hc : Shell.HandlerContext) (args : list string) :
  Shell.blockHandler (blockFuncs1 ++ blockFuncs2) next hc args
  = Shell.blockHandler blockFuncs1 (Shell.blockHandler blockFuncs2 next) hc args
  ∧ Shell.blockHandler [] next hc args = next hc args.
Proof.
  split; [|by destruct args].
  destruct args as [|a0 rest]; [done|]. unfold Shell.blockHandler.
  rewrite existsb_app. by destruct (existsb _ blockFuncs1).
Qed.

(** [X7]. In both modes the chain of [execHandlers] refuses a command that
    one of the block predicates blocks, with an error that holds the
    command line, the tokens joined by spaces; no later handler sees the
    command. When the in-process mode is disabled, every command that is
    not blocked is started as a child process. *)
Theorem execHandler_blocked
    (fs : string → Shell.file) (os_Stat : string → option (bool * Z))
    (filepath_Join : string → string → string)
    (coreutils_ExecHandler : Shell.Middleware)
    (useGoCoreUtils : bool) (blockFuncs : list Shell.BlockFunc)
    (hc : Shell.HandlerContext) (args : list string) :
  let chain :=
    Shell.execHandler
      (Shell.execHandlers fs os_Stat filepath_Join coreutils_ExecHandler
                          useGoCoreUtils blockFuncs) in
  (args ≠ [] →
   existsb (λ blockFunc : Shell.BlockFunc, blockFunc args) blockFuncs = true →
   chain hc args
   = Shell.Failed ("command is not allowed for security reasons: "
                   +:+ Strings.Join args " "))
  ∧ (useGoCoreUtils = false →
     existsb (λ blockFunc : Shell.BlockFunc, blockFunc args) blockFuncs = false →
     chain hc args = Shell.Spawned args).
Proof.
  intros chain. subst chain. split.
  - intros Hne Hblocked. destruct args as [|a0 rest]; [done|].
    destruct useGoCoreUtils; simpl; by rewrite Hblocked.
  - intros -> Hfree. destruct args as [|a0 rest]; [done|].
    simpl. by rewrite Hfree.
Qed.

Lemma execHandler_blocked_witness :
  Shell.execHandler
    (Shell.execHandlers (λ _, Shell.NoFile "ENOENT") (λ _, None)
       (λ dir file, dir +:+ "/" +:+ file) (λ next, next) true
       [Shell.CommandsBlocker ["curl"]])
    (Shell.Build_HandlerContext [] "/w") ["curl"; "-s"; "http://x"]
  = Shell.Failed "command is not allowed for security reasons: curl -s http://x".
Proof.
  apply (execHandler_blocked (λ _, Shell.NoFile "ENOENT") (λ _, None)
           (λ dir file, dir +:+ "/" +:+ file) (λ next, next) true
           [Shell.CommandsBlocker ["curl"]] (Shell.Build_HandlerContext [] "/w")
           ["curl"; "-s"; "http://x"]).
  - discriminate.
  - vm_compute. reflexivity.
Defined.

(** [X8]. When the in-process mode is enabled, a command whose base name
    is [sh] or [bash] is never started as a child process and never reaches
    the script handler or the built-in utilities: the chain returns an
    error, or hands a script to [runScript] with the environment and the
    directory of the handler context. *)
Theorem shell_commands_stay_in_process
    (fs : string → Shell.file) (os_Stat : string → option (bool * Z))
    (filepath_Join : string → string → string)
    (coreutils_ExecHandler : Shell.Middleware)
    (blockFuncs : list Shell.BlockFunc)
    (hc : Shell.HandlerContext) (a0 : string) (rest : list string) :
  Filepath.Base a0 = "sh" ∨ Filepath.Base a0 = "bash" →
  let r :=
    Shell.execHandler
      (Shell.execHandlers fs os_Stat filepath_Join coreutils_ExecHandler true
                          blockFuncs) hc (a0 :: rest) in
  (∃ err, r = Shell.Failed err)
  ∨ (∃ content params,
       r = Shell.RunInProcess content params (Shell.Env hc) (Shell.Dir hc)).
Proof.
  intros Hsh r. subst r. unfold Shell.execHandler, Shell.execHandlers.
  cbn [foldr app]. unfold Shell.blockHandler.
  destruct (existsb _ blockFuncs); [left; eauto|].
  rewrite !shHandler_shell by done.
  destruct (Shell.shScan _ rest) as [err|[[scriptFile scriptContent] params]];
    [left; eauto|].
  destruct (negb (String.eqb scriptContent "")); [right; eauto|].
  destruct (negb (String.eqb scriptFile "")); [|left; eauto].
  destruct (Shell.os_ReadFile fs scriptFile); [left|right]; eauto.
Qed.

Lemma shell_commands_stay_in_process_witness :
  let r :=
    Shell.execHandler
      (Shell.execHandlers (λ _, Shell.NoFile "ENOENT") (λ _, None)
         (λ dir file, dir +:+ "/" +:+ file) (λ next, next) true [])
      (Shell.Build_HandlerContext [] "/w") ["/bin/sh"; "-c"; "ls"] in
  (∃ err, r = Shell.Failed err)
  ∨ (∃ content params, r = Shell.RunInProcess content params [] "/w").
Proof.
  apply (shell_commands_stay_in_process (λ _, Shell.NoFile "ENOENT") (λ _, None)
           (λ dir file, dir +:+ "/" +:+ file) (λ next, next) []
           (Shell.Build_HandlerContext [] "/w") "/bin/sh" ["-c"; "ls"]).
  left. reflexivity.
Defined.

Section Scripts.

Import Shell.

Variable fs : string → file.

Lemma HasPrefix_shebang (content : string) :
  Strings.HasPrefix (String.substring 0 128 content) "#!" = true →
  ∃ body, content = String "#" (String "!" body).
Proof.
  unfold Strings.HasPrefix. destruct content as [|a [|b body]].
  - done.
  - cbn [String.substring]. rewrite prefix_cons. by intros [_ ?].
  - cbn [String.substring]. rewrite !prefix_cons. intros (<- & <- & _). eauto.
Qed.

Lemma isShellScript_Regular (path : string) :
  isShellScript fs path = true →
  ∃ body, fs path = Regular (String "#" (String "!" body)).
Proof.
  unfold isShellScript. destruct (fs path) as [| |content]; [done..|].
  intros [Hprefix _]%andb_true_iff.
  apply HasPrefix_shebang in Hprefix as [body ->]. eauto.
Qed.

End Scripts.

(** [X9]. [isShellScript] looks at the first 128 bytes only: two files
    with the same first 128 bytes are classified alike. A file that cannot
    be opened or read is not a shell script, and a file classified as a
    shell script begins with [#!]. *)
Theorem isShellScript_header :
  (∀ fs1 fs2 path1 path2 content1 content2,
     fs1 path1 = Shell.Regular content1 →
     fs2 path2 = Shell.Regular content2 →
     String.substring 0 128 content1 = String.substring 0 128 content2 →
     Shell.isShellScript fs1 path1 = Shell.isShellScript fs2 path2)
  ∧ (∀ fs path,
       Shell.isShellScript fs path = true →
       ∃ body, fs path = Shell.Regular (String "#" (String "!" body))).
Proof.
  split.
  - intros fs1 fs2 path1 path2 content1 content2 H1 H2 Heq.
    unfold Shell.isShellScript. by rewrite H1, H2, Heq.
  - apply isShellScript_Regular.
Qed.

Lemma isShellScript_header_witness :
  Shell.isShellScript (λ _, Shell.Regular ("#!/bin/sh" +:+ LF)) "a"
  = Shell.isShellScript (λ _, Shell.Regular ("#!/bin/sh" +:+ LF)) "b"
  ∧ ∃ body, Shell.Regular ("#!/bin/sh" +:+ LF) = Shell.Regular (String "#" (String "!" body)).
Proof.
  destruct isShellScript_header as [Hsame Hshebang]. split.
  - apply (Hsame _ _ "a" "b" ("#!/bin/sh" +:+ LF) ("#!/bin/sh" +:+ LF));
      reflexivity.
  - apply (Hshebang (λ _, Shell.Regular ("#!/bin/sh" +:+ LF)) "a"). reflexivity.
Defined.

Lemma pathVariable_from (env : list (string * string)) (pathEnv : string) :
  Forall (λ kv, kv.1 ≠ "PATH") env →
  foldl (λ pathEnv kv, if String.eqb kv.1 "PATH" then kv.2 else pathEnv) pathEnv env
  = pathEnv.
Proof.
  revert pathEnv. induction env as [|kv env IH]; intros pathEnv Hall; [done|].
  apply Forall_cons in Hall as [Hkv Hall]. simpl.
  apply String.eqb_neq in Hkv. rewrite Hkv. by apply IH.
Qed.

Lemma pathVariable_last (before after : list (string * string)) (value : string) :
  Forall (λ kv, kv.1 ≠ "PATH") after →
  Shell.pathVariable (before ++ ("PATH", value) :: after) = value.
Proof.
  intros Hafter. unfold Shell.pathVariable. rewrite foldl_app. simpl.
  by apply pathVariable_from.
Qed.

(** [X10]. The script handler, on a command whose base name is neither
    [sh] nor [bash]. The file looked at is the command name itself when it
    holds a slash, and otherwise what [lookPath] finds for it in the search
    path, which is the value of the last [PATH] variable that the iteration
    over the environment visits; a name that [lookPath] does not find goes
    to the next handler. A file that [isShellScript] accepts is read and
    handed to [runScript] with the whole argument vector as parameters, the
    command name first; for any other file the next handler is called with
    the same arguments. *)
Theorem scriptExecutionHandler_decision
    (fs : string → Shell.file) (os_Stat : string → option (bool * Z))
    (filepath_Join : string → string → string)
    (next : Shell.ExecHandlerFunc) (hc : Shell.HandlerContext)
    (path : string) (rest : list string) :
  Filepath.Base path ≠ "sh" →
  Filepath.Base path ≠ "bash" →
  let r := Shell.scriptExecutionHandler fs os_Stat filepath_Join next hc (path :: rest) in
  let decided file :=
    (Shell.isShellScript fs file = true →
     ∃ content, fs file = Shell.Regular content
                ∧ r = Shell.runScript content (path :: rest)
                                      (Shell.Env hc) (Shell.Dir hc))
    ∧ (Shell.isShellScript fs file = false → r = next hc (path :: rest)) in
  (Strings.Contains path "/" = true → decided path)
  ∧ (Strings.Contains path "/" = false →
     (Shell.lookPath os_Stat filepath_Join path (Shell.pathVariable (Shell.Env hc))
      = None →
      r = next hc (path :: rest))
     ∧ (∀ found,
          Shell.lookPath os_Stat filepath_Join path (Shell.pathVariable (Shell.Env hc))
          = Some found →
          decided found))
  ∧ (∀ before value after,
       Shell.Env hc = before ++ ("PATH", value) :: after →
       Forall (λ kv, kv.1 ≠ "PATH") after →
       Shell.pathVariable (Shell.Env hc) = value)
  ∧ (Forall (λ kv, kv.1 ≠ "PATH") (Shell.Env hc) →
     Shell.pathVariable (Shell.Env hc) = "").
Proof.
  intros Hsh Hbash r decided.
  assert (Hdecided : ∀ file,
            r = (if Shell.isShellScript fs file
                 then match Shell.os_ReadFile fs file with
                      | inl err => Shell.Failed err
                      | inr content =>
                          Shell.runScript content (path :: rest)
                                          (Shell.Env hc) (Shell.Dir hc)
                      end
                 else next hc (path :: rest)) →
            decided file).
  { intros file Hr. subst decided. cbv beta. split.
    - intros Hscript. rewrite Hscript in Hr.
      destruct (isShellScript_Regular fs file Hscript) as [body Hfile].
      exists (String "#" (String "!" body)). split; [done|].
      unfold Shell.os_ReadFile in Hr. by rewrite Hfile in Hr.
    - intros Hscript. by rewrite Hscript in Hr. }
  assert (Hr : r = match (if negb (Strings.Contains path "/")
                          then Shell.lookPath os_Stat filepath_Join path
                                 (Shell.pathVariable (Shell.Env hc))
                          else Some path) with
                   | None => next hc (path :: rest)
                   | Some file =>
                       if Shell.isShellScript fs file
                       then match Shell.os_ReadFile fs file with
                            | inl err => Shell.Failed err
                            | inr content =>
                                Shell.runScript content (path :: rest)
                                                (Shell.Env hc) (Shell.Dir hc)
                            end
                       else next hc (path :: rest)
                   end).
  { subst r. unfold Shell.scriptExecutionHandler.
    apply String.eqb_neq in Hsh, Hbash. by rewrite Hsh, Hbash. }
  split; [|split; [|split]].
  - intros Hslash. apply Hdecided. by rewrite Hr, Hslash.
  - intros Hslash. rewrite Hslash in Hr. cbn [negb] in Hr. split.
    + intros Hlook. by rewrite Hr, Hlook.
    + intros found Hlook. apply Hdecided. by rewrite Hr, Hlook.
  - intros before value after -> Hafter. by apply pathVariable_last.
  - intros Hnone. by apply pathVariable_from.
Qed.

Lemma scriptExecutionHandler_decision_witness :
  let script := "#!/bin/sh" +:+ LF +:+ "echo hi" in
  let fs := λ _, Shell.Regular script in
  let os_Stat := λ path,
    if String.eqb path "/w/pbin/deploy" then Some (false, 493%Z) else None in
  let join := λ dir file, dir +:+ "/" +:+ file in
  let hc := Shell.Build_HandlerContext [("PATH", "/w/nodir"); ("PATH", "/w/pbin")] "/w" in
  (∃ content,
     fs "./build.sh" = Shell.Regular content
     ∧ Shell.scriptExecutionHandler fs os_Stat join Shell.DefaultExecHandler hc
         ["./build.sh"; "all"]
       = Shell.runScript content ["./build.sh"; "all"] (Shell.Env hc) "/w")
  ∧ (∃ content,
       fs "/w/pbin/deploy" = Shell.Regular content
       ∧ Shell.scriptExecutionHandler fs os_Stat join Shell.DefaultExecHandler hc
           ["deploy"; "prod"]
         = Shell.runScript content ["deploy"; "prod"] (Shell.Env hc) "/w").
Proof.
  intros script fs os_Stat join hc. split.
  - destruct (scriptExecutionHandler_decision fs os_Stat join
                Shell.DefaultExecHandler hc "./build.sh" ["all"])
      as [Hslash _]; [discriminate..|].
    destruct Hslash as [Hscript _]; [reflexivity|].
    apply Hscript. reflexivity.
  - destruct (scriptExecutionHandler_decision fs os_Stat join
                Shell.DefaultExecHandler hc "deploy" ["prod"])
      as (_ & Hbare & _); [discriminate..|].
    destruct Hbare as [_ Hfound]; [reflexivity|].
    destruct (Hfound "/w/pbin/deploy") as [Hscript _]; [vm_compute; reflexivity|].
    apply Hscript. reflexivity.
Defined.

(** [X11]. [lookPath] finds nothing in an empty search path. What it
    finds is the file name joined to a directory of the search path, the
    empty directory standing for ["."]; the file exists, is not a
    directory and has an execute bit, and no earlier directory of the
    search path holds such a file. *)
Theorem lookPath_sound
    (os_Stat : string → option (bool * Z))
    (filepath_Join : string → string → string) (file pathEnv : string) :
  let candidate dir := filepath_Join (if String.eqb dir "" then "." else dir) file in
  let executable path :=
    ∃ mode, os_Stat path = Some (false, mode) ∧ Z.land mode 73 ≠ 0%Z in
  Shell.lookPath os_Stat filepath_Join file "" = None
  ∧ ∀ found,
      Shell.lookPath os_Stat filepath_Join file pathEnv = Some found →
      ∃ i dir,
        Filepath.SplitList pathEnv !! i = Some dir
        ∧ found = candidate dir
        ∧ executable found
        ∧ ∀ j dir', j < i → Filepath.SplitList pathEnv !! j = Some dir' →
                    ¬ executable (candidate dir').
Proof.
  intros candidate executable. split; [done|].
  intros found. unfold Shell.lookPath.
  destruct (String.eqb pathEnv ""); [done|].
  intros ([i path] & Hfind & [= <-])%fmap_Some.
  apply list_find_Some in Hfind as (Hi & Hexec & Hfirst).
  apply list_lookup_fmap_Some in Hi as (dir & -> & Hdir).
  exists i, dir. split; [done|]. split; [done|]. split.
  - unfold executable. fold (candidate dir) in Hexec |- *.
    destruct (os_Stat (candidate dir)) as [[isDir mode]|]; [|done].
    apply andb_true_iff in Hexec as [HisDir Hmode].
    destruct isDir; [done|]. exists mode. split; [done|].
    by apply negb_true_iff, Z.eqb_neq in Hmode.
  - intros j dir' Hj Hdir' (mode & Hstat & Hmode).
    apply (Hfirst j (candidate dir')); [|done|].
    + by rewrite list_lookup_fmap, Hdir'.
    + rewrite Hstat. by apply andb_true_iff, conj, negb_true_iff, Z.eqb_neq.
Qed.

Lemma lookPath_sound_witness :
  let os_Stat := λ path, if String.eqb path "/usr/bin/make" then Some (false, 493%Z) else None in
  ∃ i dir,
    Filepath.SplitList "/bin:/usr/bin" !! i = Some dir
    ∧ "/usr/bin/make" = (if String.eqb dir "" then "." else dir) +:+ "/" +:+ "make".
Proof.
  intros os_Stat.
  destruct (lookPath_sound os_Stat (λ dir file, dir +:+ "/" +:+ file) "make"
              "/bin:/usr/bin") as [_ Hfound].
  destruct (Hfound "/usr/bin/make") as (i & dir & Hi & Heq & _).
  { vm_compute. reflexivity. }
  exists i, dir. split; [exact Hi | exact Heq].
Defined.

(** ** The environment of a session *)

Section Session.

Import Shell.

Lemma setEnvLoop_cases (keyPrefix : string) (env : list string) :
  (∃ l1 entry l2,
     env = l1 ++ entry :: l2
     ∧ Forall (λ e, Strings.HasPrefix e keyPrefix = false) l1
     ∧ Strings.HasPrefix entry keyPrefix = true
     ∧ ∀ value,
         setEnvLoop keyPrefix value env = Some (l1 ++ (keyPrefix +:+ value) :: l2))
  ∨ (Forall (λ e, Strings.HasPrefix e keyPrefix = false) env
     ∧ ∀ value, setEnvLoop keyPrefix value env = None).
Proof.
  induction env as [|e env IH].
  { right. by split. }
  destruct (Strings.HasPrefix e keyPrefix) eqn:He.
  - left. exists [], e, env. repeat split; [done..|].
    intros value. simpl. by rewrite He.
  - destruct IH as [(l1 & entry & l2 & -> & Hl1 & Hentry & Hloop) | [Hall Hloop]].
    + left. exists (e :: l1), entry, l2. repeat split; [by constructor | done |].
      intros value. simpl. by rewrite He, Hloop.
    + right. split; [by constructor|].
      intros value. simpl. by rewrite He, Hloop.
Qed.

Lemma setEnvLoop_found (keyPrefix value : string) (l1 l2 : list string) (entry : string) :
  Forall (λ e, Strings.HasPrefix e keyPrefix = false) l1 →
  Strings.HasPrefix entry keyPrefix = true →
  setEnvLoop keyPrefix value (l1 ++ entry :: l2)
  = Some (l1 ++ (keyPrefix +:+ value) :: l2).
Proof.
  intros Hl1 Hentry. induction Hl1 as [|e l1 He _ IH]; simpl.
  - by rewrite Hentry.
  - by rewrite He, IH.
Qed.

Lemma filter_no_prefix (keyPrefix : string) (l : list string) :
  Forall (λ e, Strings.HasPrefix e keyPrefix = false) l →
  filter (λ e, Strings.HasPrefix e keyPrefix = false) l = l.
Proof.
  induction 1 as [|e l He _ IH]; [done|].
  by rewrite filter_cons_True, IH.
Qed.

Lemma SetEnv_shape (key : string) (s : Shell) :
  let keyPrefix := key +:+ "=" in
  let session e := {| env := e; cwd := cwd s; blockFuncs := blockFuncs s |} in
  ∃ E : string → list string,
    (∀ v, SetEnv key v s = session (E v))
    ∧ (∀ v v', SetEnv key v' (session (E v)) = session (E v'))
    ∧ (∀ v, (keyPrefix +:+ v) ∈ E v)
    ∧ (∀ v v', length (E v) = length (E v'))
    ∧ (∀ v, length (env s) ≤ length (E v) ≤ S (length (env s)))
    ∧ (∀ v, filter (λ e, Strings.HasPrefix e keyPrefix = false) (E v)
            = filter (λ e, Strings.HasPrefix e keyPrefix = false) (env s)).
Proof.
  intros keyPrefix session.
  assert (Hnew : ∀ v, Strings.HasPrefix (keyPrefix +:+ v) keyPrefix = true)
    by (intros v; apply prefix_app).
  destruct (setEnvLoop_cases keyPrefix (env s))
    as [(l1 & entry & l2 & Henv & Hl1 & Hentry & Hloop) | [Hall Hloop]].
  - exists (λ v, l1 ++ (keyPrefix +:+ v) :: l2). split_and!.
    + intros v. unfold SetEnv. cbv zeta. fold keyPrefix. by rewrite Hloop.
    + intros v v'. unfold SetEnv. cbv zeta. fold keyPrefix. cbn [env session].
      by rewrite setEnvLoop_found.
    + intros v. apply elem_of_app. right. by left.
    + intros v v'. by rewrite !length_app.
    + intros v. rewrite Henv, !length_app. simpl. lia.
    + intros v. rewrite Henv, !filter_app, !filter_cons_False; [done|congruence..].
  - exists (λ v, env s ++ [keyPrefix +:+ v]). split_and!.
    + intros v. unfold SetEnv. cbv zeta. fold keyPrefix. by rewrite Hloop.
    + intros v v'. unfold SetEnv. cbv zeta. fold keyPrefix. cbn [env session].
      by rewrite setEnvLoop_found.
    + intros v. apply elem_of_app. right. by left.
    + intros v v'. by rewrite !length_app.
    + intros v. rewrite !length_app. simpl. lia.
    + intros v.
      rewrite filter_app, filter_cons_False, filter_nil, app_nil_r; [done|congruence].
Qed.

End Session.

(** [X12]. [SetEnv] followed by [GetEnv]: the entry [key=value] is in the
    environment. A second [SetEnv] for the same key gives the environment
    that it alone would have given and adds no entry. [SetEnv] adds at most
    one entry, keeps the entries that do not begin with [key=] as they are
    and in their order, and leaves the working directory and the block
    predicates alone. *)
Theorem SetEnv_GetEnv (key value : string) (s : Shell.Shell) :
  let s' := Shell.SetEnv key value s in
  ((key +:+ "=") +:+ value) ∈ Shell.GetEnv s'
  ∧ (∀ value', Shell.SetEnv key value' s' = Shell.SetEnv key value' s)
  ∧ (∀ value', length (Shell.GetEnv (Shell.SetEnv key value' s'))
               = length (Shell.GetEnv s'))
  ∧ length (Shell.GetEnv s) ≤ length (Shell.GetEnv s') ≤ S (length (Shell.GetEnv s))
  ∧ filter (λ e, Strings.HasPrefix e (key +:+ "=") = false) (Shell.GetEnv s')
    = filter (λ e, Strings.HasPrefix e (key +:+ "=") = false) (Shell.GetEnv s)
  ∧ Shell.cwd s' = Shell.cwd s
  ∧ Shell.blockFuncs s' = Shell.blockFuncs s.
Proof.
  intros s'. subst s'. unfold Shell.GetEnv.
  destruct (SetEnv_shape key s) as (E & Hset & Hagain & Hin & Hlen & Hbound & Hrest).
  rewrite Hset. cbn [Shell.env Shell.cwd Shell.blockFuncs]. split_and!; try done.
  - intros value'. by rewrite Hagain, Hset.
  - intros value'. rewrite Hagain. apply Hlen.
  - apply Hbound.
  - apply Hbound.
Qed.

(** ** The sandbox over the life of a process *)

Section SandboxMore.

Import Security.

Lemma exec_Init_initialized os dataDir workingDir p :
  initialized p = true → exec (CallInit os dataDir workingDir) p = p.
Proof. intros H. simpl. by rewrite Init_initialized. Qed.

(** The invariant of the package. *)
Lemma exec_invariant (c : call) (p : process) :
  let inv p :=
    (initialized p = false → promises p = None)
    ∧ (initialized p = true →
       locked p = true
       ∧ (promises p = Some allPromises ∨ promises p = Some shutdownPromises)) in
  inv p → inv (exec c p).
Proof.
  intros inv [Hoff Hon]. subst inv. cbv beta.
  destruct c as [os dataDir workingDir|os|]; [| |done].
  - destruct (initialized p) eqn:Hi.
    { rewrite exec_Init_initialized by done. rewrite Hi. split; [done | auto]. }
    simpl. rewrite Init_run by done. cbv zeta.
    destruct (frames_setupUnveil os dataDir workingDir p) as (Hi' & Hl' & Hp' & _ & _).
    rewrite Hi in Hi'.
    destruct (setupUnveil os dataDir workingDir p) as [[e|] p']; simpl in *.
    { rewrite Hi', Hp'. split; [auto | done]. }
    destruct (unix_UnveilBlock os).
    { simpl. rewrite Hi', Hp'. split; [auto | done]. }
    destruct (unix_PledgePromises os (promises p') allPromises); simpl.
    + rewrite Hi', Hp'. split; [auto | done].
    + split; [done | auto].
  - simpl. rewrite Shutdown_run. destruct (initialized p) eqn:Hi.
    2:{ simpl. rewrite Hi. split; [auto | done]. }
    destruct (Hon eq_refl) as [Hlocked Hpromises].
    destruct (unix_PledgePromises os (promises p) shutdownPromises); simpl;
      rewrite ?Hi; (split; [done | auto]).
Qed.

(** What a call cannot undo. *)
Lemma exec_stable (c : call) (p : process) :
  initialized p = true →
  initialized (exec c p) = true
  ∧ unveiled (exec c p) = unveiled p
  ∧ locked (exec c p) = locked p
  ∧ (promises p = Some shutdownPromises →
     promises (exec c p) = Some shutdownPromises).
Proof.
  intros Hi. destruct c as [os dataDir workingDir|os|]; [| |done].
  - by rewrite exec_Init_initialized.
  - simpl. rewrite Shutdown_run, Hi.
    destruct (unix_PledgePromises os (promises p) shutdownPromises); simpl;
      rewrite ?Hi; auto.
Qed.

Lemma run_snoc (calls : list call) (c : call) (p : process) :
  run (calls ++ [c]) p = exec c (run calls p).
Proof. unfold run. by rewrite foldl_app. Qed.

Lemma run_app (calls more : list call) (p : process) :
  run (calls ++ more) p = run more (run calls p).
Proof. unfold run. by rewrite foldl_app. Qed.

End SandboxMore.

(** [X13]. In every state that calls of [Init], [Shutdown] and
    [IsInitialized] reach from the start of the process, whatever the
    system answers: as long as [initialized] is false no promise has been
    pledged, and once it is true [unveil] is locked and the promises
    pledged are [allPromises] or [shutdownPromises]. *)
Theorem sandbox_invariant (calls : list call) :
  let p := history calls in
  (Security.initialized p = false → Security.promises p = None)
  ∧ (Security.initialized p = true →
     Security.locked p = true
     ∧ (Security.promises p = Some Security.allPromises
        ∨ Security.promises p = Some Security.shutdownPromises)).
Proof.
  unfold history. induction calls as [|c calls IH] using rev_ind.
  - by split.
  - rewrite run_snoc. by apply exec_invariant.
Qed.

(** [X14]. Once [initialized] is true, no sequence of calls changes it,
    the list of unveiled paths or the lock, and once the promises are
    [shutdownPromises] they stay so: the sandbox is set up once and is only
    ever narrowed. *)
Theorem sandbox_terminal (calls : list call) (p : Security.process) :
  Security.initialized p = true →
  Security.initialized (run calls p) = true
  ∧ Security.unveiled (run calls p) = Security.unveiled p
  ∧ Security.locked (run calls p) = Security.locked p
  ∧ (Security.promises p = Some Security.shutdownPromises →
     Security.promises (run calls p) = Some Security.shutdownPromises).
Proof.
  intros Hi. induction calls as [|c calls IH] using rev_ind.
  - done.
  - rewrite run_snoc. destruct IH as (Hi' & Hu & Hl & Hp).
    destruct (exec_stable c (run calls p) Hi') as (? & Hu' & Hl' & Hp').
    split; [done|]. split; [congruence|]. split; [congruence|]. auto.
Qed.

Lemma sandbox_terminal_witness :
  let os := openbsdHost [] in
  let p := (Security.Init os "/var/crush" "proj" Security.start).2 in
  let calls := [CallShutdown os; CallInit (openbsdHost ["/bin"]) "/etc" "/";
                CallShutdown os; CallIsInitialized] in
  Security.initialized (run calls p) = true
  ∧ Security.unveiled (run calls p) = Security.unveiled p.
Proof.
  intros os p calls.
  destruct (sandbox_terminal calls p) as (Hi & Hu & _).
  { vm_compute. reflexivity. }
  split; [exact Hi | exact Hu].
Defined.

(** ** What [Init] unveils *)

Section Policy.

Import Security.

Variable os : OS.

Lemma within_ret {A} allowed (a : A) : within os allowed (mret a).
Proof. intros p. exists []. simpl. split; [by rewrite app_nil_r | by intros e ?%elem_of_nil]. Qed.

Lemma within_bind {A B} allowed (m : M A) (f : A → M B) :
  within os allowed m → (∀ a, within os allowed (f a)) → within os allowed (m ≫= f).
Proof.
  intros Hm Hf p. rewrite run_bind.
  destruct (Hm p) as (more1 & Hu1 & H1).
  destruct (Hf (m p).1 (m p).2) as (more2 & Hu2 & H2).
  exists (more1 ++ more2). split.
  - by rewrite Hu2, Hu1, app_assoc.
  - intros e [?|?]%elem_of_app; auto.
Qed.

Lemma within_slog_Debug allowed msg attrs : within os allowed (slog_Debug msg attrs).
Proof. intros p. exists []. simpl. split; [by rewrite app_nil_r | by intros e ?%elem_of_nil]. Qed.

Lemma within_Unveil allowed path perms :
  (path, perms) ∈ allowed → within os allowed (Unveil os path perms).
Proof.
  intros Hin p. unfold Unveil. destruct (unix_Unveil os path perms) eqn:E; simpl.
  - exists []. split; [by rewrite app_nil_r | by intros e ?%elem_of_nil].
  - exists [(path, perms)]. split; [done|].
    by intros e ->%list_elem_of_singleton.
Qed.

Lemma within_weaken {A} allowed allowed' (m : M A) :
  (∀ e, e ∈ allowed → e ∈ allowed') → within os allowed m → within os allowed' m.
Proof.
  intros Hsub Hm p. destruct (Hm p) as (more & Hu & H).
  exists more. split; [done|]. intros e He. destruct (H e He). auto.
Qed.

Ltac within :=
  repeat first
    [ apply within_ret | apply within_slog_Debug
    | apply within_Unveil; [first [done | by left]]
    | apply within_bind; [|intros ?]
    | match goal with
      | |- within _ _ (match ?x with _ => _ end) => destruct x
      end ].

Lemma within_unveilOrSkip allowed path perms msg attrs :
  (path, perms) ∈ allowed → within os allowed (unveilOrSkip os path perms msg attrs).
Proof. intros Hin. unfold unveilOrSkip. within. Qed.

Lemma within_unveilSystemPaths allowed sps n :
  (∀ sp, sp ∈ sps → sp ∈ allowed) → within os allowed (unveilSystemPaths os sps n).
Proof.
  revert n. induction sps as [|[path perms] sps IH]; intros n Hsub; simpl; [within|].
  assert (Hhead : (path, perms) ∈ allowed) by (apply Hsub; by left).
  assert (Htail : ∀ sp, sp ∈ sps → sp ∈ allowed) by (intros sp ?; apply Hsub; by right).
  apply within_bind; [by apply within_Unveil|]. intros [err|]; [|by apply IH].
  apply within_bind; [apply within_slog_Debug|]. intros _. by apply IH.
Qed.

Lemma within_unveilXdgPaths allowed xps :
  (∀ xp, xp ∈ xps → (xp, "rwc") ∈ allowed) → within os allowed (unveilXdgPaths os xps).
Proof.
  induction xps as [|xp xps IH]; intros Hsub; simpl; [within|].
  apply within_bind.
  - apply within_unveilOrSkip, Hsub. by left.
  - intros _. apply IH. intros xp' ?. apply Hsub. by right.
Qed.

Lemma within_unveilHome dataDir :
  within os ((λ g, (grantPath g, grantPerms g)) <$> homeGrants os dataDir)
         (unveilHome os dataDir).
Proof.
  unfold homeGrants, unveilHome.
  destruct (os_UserHomeDir os) as [homeDir [err|]]; [within|].
  destruct (String.eqb homeDir ""); cbv beta iota zeta delta [negb]; [within|].
  rewrite !fmap_app.
  apply within_bind; [|intros _; apply within_bind; [|intros _; apply within_bind;
    [|intros _; apply within_bind; [|intros _]]]].
  - destruct (String.eqb _ _); [within|].
    apply within_unveilOrSkip. apply elem_of_app. left. by left.
  - apply within_unveilXdgPaths. intros xp Hxp.
    apply elem_of_app. right. apply elem_of_app. left.
    apply elem_of_cons in Hxp as [->|Hxp]; [by left|].
    apply list_elem_of_singleton in Hxp as ->. right. by left.
  - apply within_unveilOrSkip.
    do 2 (apply elem_of_app; right). apply elem_of_app. left. by left.
  - destruct (String.eqb_spec (os_Getenv os "GOPATH") "") as [|Hset]; [within|].
    apply within_unveilOrSkip. do 3 (apply elem_of_app; right).
    apply list_elem_of_fmap.
    exists (Grant (os_Getenv os "GOPATH") "rwc" "unveil GOPATH skipped"
                  [("path", os_Getenv os "GOPATH")]).
    split; [done|]. apply list_elem_of_fmap. exists "GOPATH". split; [done|].
    apply list_elem_of_filter. split; [done | by left].
  - destruct (String.eqb_spec (os_Getenv os "GOCACHE") "") as [|Hset]; [within|].
    apply within_unveilOrSkip. do 3 (apply elem_of_app; right).
    apply list_elem_of_fmap.
    exists (Grant (os_Getenv os "GOCACHE") "rwc" "unveil GOCACHE skipped"
                  [("path", os_Getenv os "GOCACHE")]).
    split; [done|]. apply list_elem_of_fmap. exists "GOCACHE". split; [done|].
    apply list_elem_of_filter. split; [done | right; by left].
Qed.

Lemma within_unveilTemp n :
  within os [(grantPath (tempGrant os), grantPerms (tempGrant os))] (unveilTemp os n).
Proof.
  intros p. unfold tempGrant, unveilTemp.
  destruct (os_MkdirAll os _); simpl; rewrite !run_bind; simpl; unfold Unveil;
    destruct (unix_Unveil os _ "rwc") eqn:E; simpl.
  all: first
    [ exists []; split; [by rewrite app_nil_r | by intros e ?%elem_of_nil]
    | eexists [_]; split; [reflexivity|];
      intros e ->%list_elem_of_singleton; split; [by left | done] ].
Qed.

Lemma within_homeTemp dataDir workingDir n :
  within os (policy os dataDir workingDir) (unveilHome os dataDir;; unveilTemp os n).
Proof.
  apply within_bind; [|intros _].
  - eapply within_weaken; [|apply within_unveilHome].
    intros e He. unfold policy. do 3 (apply elem_of_app; right).
    apply elem_of_app. by left.
  - eapply within_weaken; [|apply within_unveilTemp].
    intros e He. unfold policy. do 4 (apply elem_of_app; right). done.
Qed.

Lemma within_unveilWorkingDir dataDir workingDir n :
  within os (policy os dataDir workingDir) (unveilWorkingDir os dataDir workingDir n).
Proof.
  unfold unveilWorkingDir.
  destruct (String.eqb workingDir "") eqn:Hw; simpl; [apply within_homeTemp|].
  destruct (filepath_Abs os workingDir) as [a [e|]] eqn:Habs; [within|].
  apply within_bind.
  - apply within_Unveil. unfold policy. rewrite Hw, Habs.
    do 2 (apply elem_of_app; right). apply elem_of_app. left. by left.
  - intros [e|]; [within | apply within_homeTemp].
Qed.

Lemma within_unveilDataDir dataDir workingDir n :
  within os (policy os dataDir workingDir) (unveilDataDir os dataDir workingDir n).
Proof.
  unfold unveilDataDir.
  destruct (String.eqb dataDir "") eqn:Hd; simpl; [apply within_unveilWorkingDir|].
  destruct (filepath_Abs os dataDir) as [a [e|]] eqn:Habs; [within|].
  apply within_bind.
  - apply within_Unveil. unfold policy. rewrite Hd, Habs.
    apply elem_of_app. right. apply elem_of_app. left. by left.
  - intros [e|]; [within | apply within_unveilWorkingDir].
Qed.

Lemma within_setupUnveil dataDir workingDir :
  within os (policy os dataDir workingDir) (setupUnveil os dataDir workingDir).
Proof.
  apply within_bind; [|intros n; apply within_unveilDataDir].
  apply within_unveilSystemPaths. intros sp Hsp. unfold policy.
  apply elem_of_app. by left.
Qed.

Lemma Init_unveiled dataDir workingDir p :
  unveiled (Init os dataDir workingDir p).2
  = if initialized p then unveiled p
    else unveiled (setupUnveil os dataDir workingDir p).2.
Proof.
  destruct (initialized p) eqn:Hi.
  { by rewrite Init_initialized. }
  rewrite Init_run by done. cbv zeta.
  destruct (setupUnveil os dataDir workingDir p).1; [done|].
  destruct (unix_UnveilBlock os); [done|].
  by destruct (unix_PledgePromises os _ _).
Qed.

Lemma homeGrants_perms dataDir g :
  g ∈ homeGrants os dataDir → grantPerms g = "rwc" ∨ grantPerms g = "r".
Proof.
  unfold homeGrants. destruct (os_UserHomeDir os) as [homeDir [err|]].
  { by intros ?%elem_of_nil. }
  destruct (String.eqb homeDir ""); [by intros ?%elem_of_nil|].
  rewrite !elem_of_app. intros [Hg|[Hg|[Hg|Hg]]].
  - destruct (String.eqb _ _); [by apply elem_of_nil in Hg|].
    apply list_elem_of_singleton in Hg as ->. by left.
  - apply list_elem_of_fmap in Hg as (xp & -> & _). by left.
  - apply list_elem_of_singleton in Hg as ->. by right.
  - apply list_elem_of_fmap in Hg as (name & -> & _). by left.
Qed.

End Policy.

(** [X15]. [Init] only adds to the unveiled paths, and what it adds is
    within the policy: a system path with its listed permissions, the
    data directory with [rwc], the working directory with [rwcx], a grant
    of the home directory or the temporary directory, each one accepted by
    [unveil]. Execute permission is given to [/usr/bin], [/usr/local/bin],
    [/bin] and the working directory only. *)
Theorem Init_within_policy
    (os : Security.OS) (dataDir workingDir : string) (p : Security.process) :
  ∃ more,
    Security.unveiled (Security.Init os dataDir workingDir p).2
    = Security.unveiled p ++ more
    ∧ ∀ path perms,
        (path, perms) ∈ more →
        (path, perms) ∈ policy os dataDir workingDir
        ∧ Security.unix_Unveil os path perms = None
        ∧ (Strings.Contains perms "x" = true →
           (path, perms) ∈ [("/usr/bin", "rx"); ("/usr/local/bin", "rx"); ("/bin", "rx");
                            ((Security.filepath_Abs os workingDir).1, "rwcx")]).
Proof.
  rewrite Init_unveiled. destruct (Security.initialized p).
  { exists []. split; [by rewrite app_nil_r | by intros ?? ?%elem_of_nil]. }
  destruct (within_setupUnveil os dataDir workingDir p) as (more & Hu & Hmore).
  exists more. split; [done|]. intros path perms Hin.
  destruct (Hmore _ Hin) as [Hpolicy Hok]. split; [done|]. split; [done|].
  intros Hx. unfold policy in Hpolicy.
  apply elem_of_app in Hpolicy as [Hsys|Hpolicy].
  { unfold Security.systemPaths in Hsys.
    repeat (apply elem_of_cons in Hsys as [[= -> ->]|Hsys];
            [first [by vm_compute in Hx
                   | by left | by right; left | by right; right; left]|]).
    by apply elem_of_nil in Hsys. }
  apply elem_of_app in Hpolicy as [Hdata|Hpolicy].
  { destruct (String.eqb dataDir ""); [by apply elem_of_nil in Hdata|].
    apply list_elem_of_singleton in Hdata as [= -> ->]. by vm_compute in Hx. }
  apply elem_of_app in Hpolicy as [Hwork|Hpolicy].
  { destruct (String.eqb workingDir ""); [by apply elem_of_nil in Hwork|].
    apply list_elem_of_singleton in Hwork as [= -> ->]. do 3 right. by left. }
  apply elem_of_app in Hpolicy as [Hhome|Htemp].
  { apply list_elem_of_fmap in Hhome as (g & [= -> ->] & Hg).
    destruct (homeGrants_perms os dataDir g Hg) as [Hperms|Hperms];
      rewrite Hperms in Hx; by vm_compute in Hx. }
  apply list_elem_of_singleton in Htemp as [= -> ->]. by vm_compute in Hx.
Qed.

(** [X16]. A first [Init] whose grants succeed and whose lock fails returns
    the lock error and neither locks nor pledges. When the lock succeeds
    and the pledge fails, [Init] returns the pledge error with [unveil]
    already locked, the promises as they were and [initialized] still
    false. In every case [initialized] is true after [Init] exactly when
    [Init] returned no error. *)
Theorem Init_lock_and_pledge
    (os : Security.OS) (dataDir workingDir : string) (p : Security.process) :
  Security.initialized p = false →
  let r := Security.Init os dataDir workingDir p in
  (Security.initialized r.2 = true ↔ r.1 = None)
  ∧ (mandatoryOK os dataDir "rwc" ∧ mandatoryOK os workingDir "rwcx" →
     (∀ err, Security.unix_UnveilBlock os = Some err →
             r.1 = Some ("unveil lock failed: " +:+ err)
             ∧ Security.locked r.2 = Security.locked p
             ∧ Security.promises r.2 = Security.promises p)
     ∧ (∀ err, Security.unix_UnveilBlock os = None →
               Security.unix_PledgePromises os (Security.promises p)
                                            Security.allPromises = Some err →
               r.1 = Some ("pledge failed: " +:+ err)
               ∧ Security.locked r.2 = true
               ∧ Security.promises r.2 = Security.promises p
               ∧ Security.initialized r.2 = false)).
Proof.
  intros Hi r. subst r. rewrite Init_run by done. cbv zeta.
  pose proof (setupUnveil_result os dataDir workingDir p) as Hres.
  destruct (frames_setupUnveil os dataDir workingDir p) as (Hi' & Hl' & Hp' & _ & _).
  rewrite Hi in Hi'.
  destruct (Security.setupUnveil os dataDir workingDir p) as [res p']. simpl in *.
  split.
  - destruct res; simpl.
    { by rewrite Hi'. }
    destruct (Security.unix_UnveilBlock os); simpl.
    { by rewrite Hi'. }
    destruct (Security.unix_PledgePromises os _ _); simpl; by rewrite ?Hi'.
  - intros Hok. apply Hres in Hok. rewrite Hok, Hp'. split.
    + by intros err ->.
    + intros err -> ->. simpl. by rewrite Hi'.
Qed.

Lemma Init_lock_and_pledge_witness :
  let os := openbsdHost [] in
  let r := Security.Init os "/var/crush" "proj" Security.start in
  Security.initialized r.2 = true ↔ r.1 = None.
Proof.
  intros os r.
  apply (Init_lock_and_pledge os "/var/crush" "proj" Security.start eq_refl).
Defined.

Section Mandatory.

Import Security.

Variable os : OS.

Lemma unveilWorkingDir_unveils dataDir workingDir n p :
  (unveilWorkingDir os dataDir workingDir n p).1 = None →
  workingDir ≠ "" →
  ((filepath_Abs os workingDir).1, "rwcx")
  ∈ unveiled (unveilWorkingDir os dataDir workingDir n p).2.
Proof.
  unfold unveilWorkingDir. intros Hres Hne. revert Hres.
  apply String.eqb_neq in Hne. rewrite Hne. simpl.
  destruct (filepath_Abs os workingDir) as [a [e|]]; simpl; [done|].
  rewrite run_bind. unfold Unveil.
  destruct (unix_Unveil os a "rwcx"); simpl; [done|]. intros _.
  destruct (frames_homeTemp os dataDir (n + 1)
              (Process (initialized p) (unveiled p ++ [(a, "rwcx")]) (locked p)
                       (promises p) (logged p))) as (_ & _ & _ & _ & [more ->]).
  simpl. rewrite !elem_of_app, elem_of_cons. auto.
Qed.

Lemma unveilDataDir_unveils dataDir workingDir n p :
  (unveilDataDir os dataDir workingDir n p).1 = None →
  (dataDir ≠ "" →
   ((filepath_Abs os dataDir).1, "rwc")
   ∈ unveiled (unveilDataDir os dataDir workingDir n p).2)
  ∧ (workingDir ≠ "" →
     ((filepath_Abs os workingDir).1, "rwcx")
     ∈ unveiled (unveilDataDir os dataDir workingDir n p).2).
Proof.
  unfold unveilDataDir.
  destruct (String.eqb_spec dataDir "") as [->|Hne]; simpl.
  { intros Hres. split; [done|]. by apply unveilWorkingDir_unveils. }
  destruct (filepath_Abs os dataDir) as [a [e|]]; simpl; [done|].
  rewrite run_bind. unfold Unveil.
  destruct (unix_Unveil os a "rwc"); simpl; [done|]. intros Hres. split.
  - intros _.
    destruct (frames_unveilWorkingDir os dataDir workingDir (n + 1)
                (Process (initialized p) (unveiled p ++ [(a, "rwc")]) (locked p)
                         (promises p) (logged p))) as (_ & _ & _ & _ & [more ->]).
    simpl. rewrite !elem_of_app, elem_of_cons. auto.
  - by apply unveilWorkingDir_unveils.
Qed.

End Mandatory.

(** [X17]. After a successful [Init], the data directory, when one is
    given, is unveiled under its absolute path with the permissions
    [rwc], the working directory, when one is given, with [rwcx], and
    [unveil] is locked. *)
Theorem Init_unveils_mandatory
    (os : Security.OS) (dataDir workingDir : string) (p p1 : Security.process) :
  Security.Init os dataDir workingDir p = (None, p1) →
  (dataDir ≠ "" →
   ((Security.filepath_Abs os dataDir).1, "rwc") ∈ Security.unveiled p1)
  ∧ (workingDir ≠ "" →
     ((Security.filepath_Abs os workingDir).1, "rwcx") ∈ Security.unveiled p1)
  ∧ Security.locked p1 = true.
Proof.
  intros HInit. pose proof (Init_success _ _ _ _ _ HInit) as (Hi & _ & Hlocked & _).
  pose proof (Init_unveiled os dataDir workingDir p) as Hu.
  rewrite HInit, Hi in Hu. simpl in Hu. rewrite Hu.
  assert (Hres : (Security.setupUnveil os dataDir workingDir p).1 = None).
  { rewrite Init_run in HInit by done. cbv zeta in HInit.
    by destruct (Security.setupUnveil os dataDir workingDir p).1. }
  unfold Security.setupUnveil in *. rewrite run_bind in *.
  destruct (unveilDataDir_unveils os dataDir workingDir _ _ Hres) as [Hd Hw].
  auto.
Qed.

Lemma Init_unveils_mandatory_witness :
  let os := openbsdHost ["/sbin"] in
  let p1 := (Security.Init os "/var/crush" "proj" Security.start).2 in
  ("/var/crush", "rwc") ∈ Security.unveiled p1
  ∧ ("/home/dev/proj", "rwcx") ∈ Security.unveiled p1.
Proof.
  intros os p1.
  destruct (Init_unveils_mandatory os "/var/crush" "proj" Security.start p1)
    as (Hd & Hw & _).
  { vm_compute. reflexivity. }
  split; [apply Hd | apply Hw]; discriminate.
Defined.

Section Partial.

Import Security.

Variable os : OS.

Lemma setupUnveil_system dataDir workingDir p path perms :
  (path, perms) ∈ systemPaths →
  unix_Unveil os path perms = None →
  (path, perms) ∈ unveiled (setupUnveil os dataDir workingDir p).2.
Proof.
  intros Hin Hok.
  assert (Hg : attempts os (Grant path perms "unveil skipped" [("path", path)])
                        (setupUnveil os dataDir workingDir)).
  { apply attempts_bind_l; [|intros n; apply frames_unveilDataDir].
    apply attempts_unveilSystemPaths.
    by apply (list_elem_of_fmap_2
                (λ sp, Grant sp.1 sp.2 "unveil skipped" [("path", sp.1)])
                systemPaths (path, perms)). }
  specialize (Hg p). unfold settled in Hg. simpl in Hg. by rewrite Hok in Hg.
Qed.

Lemma unveilDataDir_data dataDir workingDir n p :
  dataDir ≠ "" →
  mandatoryOK os dataDir "rwc" →
  ((filepath_Abs os dataDir).1, "rwc")
  ∈ unveiled (unveilDataDir os dataDir workingDir n p).2.
Proof.
  intros Hne [?|[Habs Hok]]; [done|]. unfold unveilDataDir.
  apply String.eqb_neq in Hne. rewrite Hne. simpl.
  destruct (filepath_Abs os dataDir) as [a [e|]]; simpl in *; [done|].
  rewrite run_bind. unfold Unveil. rewrite Hok. simpl.
  destruct (frames_unveilWorkingDir os dataDir workingDir (n + 1)
              (Process (initialized p) (unveiled p ++ [(a, "rwc")]) (locked p)
                       (promises p) (logged p))) as (_ & _ & _ & _ & [more ->]).
  simpl. rewrite !elem_of_app, elem_of_cons. auto.
Qed.

End Partial.

(** [X18]. A first [Init] that fails does not undo what it has unveiled:
    every system path that [unveil] accepts is unveiled after [Init],
    whether [Init] succeeds or not, and when the data directory is
    unveiled and the working directory fails, [Init] returns an error and
    the data directory stays unveiled. *)
Theorem Init_failure_keeps_grants
    (os : Security.OS) (dataDir workingDir : string) (p : Security.process) :
  Security.initialized p = false →
  let r := Security.Init os dataDir workingDir p in
  (∀ path perms,
     (path, perms) ∈ Security.systemPaths →
     Security.unix_Unveil os path perms = None →
     (path, perms) ∈ Security.unveiled r.2)
  ∧ (dataDir ≠ "" →
     mandatoryOK os dataDir "rwc" →
     ¬ mandatoryOK os workingDir "rwcx" →
     r.1 ≠ None
     ∧ Security.initialized r.2 = false
     ∧ ((Security.filepath_Abs os dataDir).1, "rwc") ∈ Security.unveiled r.2).
Proof.
  intros Hi r. subst r. split.
  - intros path perms. rewrite Init_unveiled, Hi. apply setupUnveil_system.
  - intros Hne Hdata Hwork.
    assert (Hres : (Security.setupUnveil os dataDir workingDir p).1 ≠ None).
    { intros Hres. apply setupUnveil_result in Hres as [_ ?]. done. }
    destruct (frames_setupUnveil os dataDir workingDir p) as (Hi' & _).
    split; [|split].
    + rewrite Init_run by done. cbv zeta.
      by destruct (Security.setupUnveil os dataDir workingDir p).1.
    + rewrite Init_run by done. cbv zeta.
      destruct (Security.setupUnveil os dataDir workingDir p).1; [|done].
      simpl. congruence.
    + rewrite Init_unveiled, Hi. unfold Security.setupUnveil. rewrite run_bind.
      by apply unveilDataDir_data.
Qed.

Lemma Init_failure_keeps_grants_witness :
  let os := openbsdHost ["/home/dev/proj"] in
  let r := Security.Init os "/var/crush" "proj" Security.start in
  r.1 ≠ None
  ∧ Security.initialized r.2 = false
  ∧ ("/var/crush", "rwc") ∈ Security.unveiled r.2.
Proof.
  intros os r.
  destruct (Init_failure_keeps_grants os "/var/crush" "proj" Security.start eq_refl)
    as [_ Hkept].
  apply Hkept.
  - discriminate.
  - right. split; reflexivity.
  - intros [?|[_ ?]]; discriminate.
Defined.
